(** * Layer rotation engine of the 3x3x3 cube component

    A shallow embedding of [rotateLayer], its inner frame callback
    [animateRotation] and [rotateFace] from the [RubiksCube3D] component,
    together with the parts of the scene graph they act on.

    Numbers.  JavaScript numbers are modelled by exact reals: a finite
    double is read as the real it denotes and rounding error is left out.
    The one place where the component can produce a non-finite number
    from finite inputs is the quotient [(now - startTime) / duration];
    there the type [num] keeps [Infinity], [-Infinity] and [NaN] apart,
    and the pivot angle, which stores a value derived from that quotient,
    is a [num] too.  The reals have one zero: the sign of a floating
    point zero, and the ties and last-digit effects of rounding, are
    outside the model.

    Scene graph.  [Object3D.attach], [getWorldPosition], the XYZ Euler
    matrix and [Euler.setFromRotationMatrix] belong to the three.js
    library; they are written out here after the library's formulas, the
    quaternion that three.js keeps next to the Euler angles being
    represented by the rotation matrix of those angles. *)

From Stdlib Require Import Reals Lra Lia ZArith List String Bool Psatz Permutation.
Import ListNotations.
Open Scope R_scope.

(** ** Numbers that may leave the finite range *)

Inductive num : Type :=
| Fin (r : R)
| PInf
| NInf
| NaN.

Definition Rltb (a b : R) : bool := if Rlt_dec a b then true else false.
Definition Reqb (a b : R) : bool := if Req_dec_T a b then true else false.

(** [a / b] for a finite dividend. *)
Definition js_div (a : R) (b : num) : num :=
  match b with
  | Fin d =>
      if Reqb d 0
      then (if Rltb 0 a then PInf else if Rltb a 0 then NInf else NaN)
      else Fin (a / d)
  | PInf | NInf => Fin 0
  | NaN => NaN
  end.

(** [Math.min(a, b)]. *)
Definition num_min (a b : num) : num :=
  match a, b with
  | NaN, _ | _, NaN => NaN
  | NInf, _ | _, NInf => NInf
  | PInf, y => y
  | x, PInf => x
  | Fin x, Fin y => Fin (Rmin x y)
  end.

(** [a - b]. *)
Definition num_sub (a b : num) : num :=
  match a, b with
  | NaN, _ | _, NaN => NaN
  | Fin x, Fin y => Fin (x - y)
  | Fin _, PInf => NInf
  | Fin _, NInf => PInf
  | PInf, PInf => NaN
  | PInf, _ => PInf
  | NInf, NInf => NaN
  | NInf, _ => NInf
  end.

Definition num_sign_mul (r : R) (pos neg : num) : num :=
  if Rltb 0 r then pos else if Rltb r 0 then neg else NaN.

(** [a * b]. *)
Definition num_mul (a b : num) : num :=
  match a, b with
  | NaN, _ | _, NaN => NaN
  | Fin x, Fin y => Fin (x * y)
  | Fin x, PInf | PInf, Fin x => num_sign_mul x PInf NInf
  | Fin x, NInf | NInf, Fin x => num_sign_mul x NInf PInf
  | PInf, PInf | NInf, NInf => PInf
  | PInf, NInf | NInf, PInf => NInf
  end.

(** [Math.pow(a, 3)]. *)
Definition num_pow3 (a : num) : num :=
  match a with
  | Fin x => Fin (x ^ 3)
  | PInf => PInf
  | NInf => NInf
  | NaN => NaN
  end.

(** [a < b]; every comparison with [NaN] is false. *)
Definition num_ltb (a b : num) : bool :=
  match a, b with
  | NaN, _ | _, NaN => false
  | Fin x, Fin y => Rltb x y
  | NInf, NInf => false
  | NInf, _ => true
  | _, NInf => false
  | PInf, _ => false
  | Fin _, PInf => true
  end.

(** [Math.round]: the nearest integer, ties towards +Infinity. *)
Definition js_round (x : R) : Z := Int_part (x + 1 / 2).

(** ** Vectors, matrices and Euler angles (three.js) *)

Record V3 : Type := mkV3 { vx : R; vy : R; vz : R }.

Record NV3 : Type := mkNV3 { nx : num; ny : num; nz : num }.

Record M33 : Type := mkM33 {
  m11 : R; m12 : R; m13 : R;
  m21 : R; m22 : R; m23 : R;
  m31 : R; m32 : R; m33 : R }.

Definition mulMV (m : M33) (v : V3) : V3 :=
  mkV3 (m11 m * vx v + m12 m * vy v + m13 m * vz v)
       (m21 m * vx v + m22 m * vy v + m23 m * vz v)
       (m31 m * vx v + m32 m * vy v + m33 m * vz v).

Definition mulMM (a b : M33) : M33 :=
  mkM33
    (m11 a * m11 b + m12 a * m21 b + m13 a * m31 b)
    (m11 a * m12 b + m12 a * m22 b + m13 a * m32 b)
    (m11 a * m13 b + m12 a * m23 b + m13 a * m33 b)
    (m21 a * m11 b + m22 a * m21 b + m23 a * m31 b)
    (m21 a * m12 b + m22 a * m22 b + m23 a * m32 b)
    (m21 a * m13 b + m22 a * m23 b + m23 a * m33 b)
    (m31 a * m11 b + m32 a * m21 b + m33 a * m31 b)
    (m31 a * m12 b + m32 a * m22 b + m33 a * m32 b)
    (m31 a * m13 b + m32 a * m23 b + m33 a * m33 b).

Definition addV (a b : V3) : V3 :=
  mkV3 (vx a + vx b) (vy a + vy b) (vz a + vz b).

(** [Matrix4.makeRotationFromEuler], order XYZ. *)
Definition eulerMatrix (e : V3) : M33 :=
  let a := cos (vx e) in let b := sin (vx e) in
  let c := cos (vy e) in let d := sin (vy e) in
  let e' := cos (vz e) in let f := sin (vz e) in
  mkM33 (c * e')                (- (c * f))             d
        (a * f + b * e' * d)    (a * e' - b * f * d)    (- (b * c))
        (b * f - a * e' * d)    (b * e' + a * f * d)    (a * c).

(** [Math.atan2(y, x)]. *)
Definition atan2 (y x : R) : R :=
  if Rltb 0 x then atan (y / x)
  else if Rltb x 0 then (if Rltb y 0 then atan (y / x) - PI else atan (y / x) + PI)
  else if Rltb 0 y then PI / 2
  else if Rltb y 0 then - (PI / 2)
  else 0.

Definition clamp (x lo hi : R) : R := Rmax lo (Rmin hi x).

(** [Euler.setFromRotationMatrix], order XYZ. *)
Definition eulerFromMatrix (m : M33) : V3 :=
  let y := asin (clamp (m13 m) (-1) 1) in
  if Rltb (Rabs (m13 m)) (9999999 / 10000000)
  then mkV3 (atan2 (- m23 m) (m33 m)) y (atan2 (- m12 m) (m11 m))
  else mkV3 (atan2 (m32 m) (m22 m)) y 0.

(** ** The scene graph of the component *)

Inductive Axis : Type := AxX | AxY | AxZ.

Inductive Parent : Type := InScene | InPivot.

(** A finite local transform: [mesh.position] and [mesh.rotation]. *)
Record Pose : Type := mkPose { position : V3; rotation : V3 }.

(** A cubie mesh.  [pose = None] stands for a transform whose components
    are all [NaN], which is what three.js leaves behind when a mesh is
    re-attached through a parent whose matrix is not finite. *)
Record Mesh : Type := mkMesh { pose : option Pose; parent : Parent }.

(** The refs the rotation logic reads and writes: [cubiesRef],
    [pivotRef] (rotation and position of the pivot), [isAnimatingRef],
    and the number of times the [onMoveComplete] prop has been called. *)
Record State : Type := mkState {
  cubies : list Mesh;
  pivotRotation : NV3;
  pivotPosition : V3;
  isAnimating : bool;
  moveCompleteCalls : nat }.

Definition CUBE_SIZE : R := 1.
Definition SPACING : R := 2 / 100.
Definition TOTAL_SIZE : R := CUBE_SIZE + SPACING.

(** The constant [epsilon] declared at the top of [rotateLayer]. *)
Definition epsilon : R := 1 / 10.

Definition zeroV : V3 := mkV3 0 0 0.
Definition zeroNV : NV3 := mkNV3 (Fin 0) (Fin 0) (Fin 0).

(** The build loop: [x], [y], [z] run from -1 to 1, [z] innermost. *)
Definition gridIndices : list Z := [-1; 0; 1]%Z.

Definition buildCubies : list Mesh :=
  flat_map (fun x =>
    flat_map (fun y =>
      map (fun z =>
        mkMesh (Some (mkPose (mkV3 (IZR x * TOTAL_SIZE)
                                   (IZR y * TOTAL_SIZE)
                                   (IZR z * TOTAL_SIZE))
                             zeroV))
               InScene)
        gridIndices)
      gridIndices)
    gridIndices.

Definition initialState : State :=
  mkState buildCubies zeroNV zeroV false 0.

(** The rotation matrix of the pivot, when its three angles are finite. *)
Definition pivotMatrix (st : State) : option M33 :=
  match pivotRotation st with
  | mkNV3 (Fin x) (Fin y) (Fin z) => Some (eulerMatrix (mkV3 x y z))
  | _ => None
  end.

(** [mesh.getWorldPosition]; [None] is a vector of [NaN]. *)
Definition getWorldPosition (st : State) (m : Mesh) : option V3 :=
  match pose m with
  | None => None
  | Some p =>
      match parent m with
      | InScene => Some (position p)
      | InPivot =>
          match pivotMatrix st with
          | Some r => Some (addV (mulMV r (position p)) (pivotPosition st))
          | None => None
          end
      end
  end.

Definition axisCoord (a : Axis) (v : V3) : R :=
  match a with AxX => vx v | AxY => vy v | AxZ => vz v end.

(** The predicate of the [activeCubies] filter. *)
Definition inLayer (st : State) (axis : Axis) (index : Z) (m : Mesh) : bool :=
  match getWorldPosition st m with
  | None => false
  | Some worldPos =>
      let targetPos := IZR index * (1 + 2 / 100) in
      Rltb (Rabs (axisCoord axis worldPos - targetPos)) (5 / 10)
  end.

(** The selected cubies, as positions in [cubiesRef.current]. *)
Fixpoint filterIdx (f : Mesh -> bool) (l : list Mesh) (i : nat) : list nat :=
  match l with
  | [] => []
  | m :: l' => if f m then i :: filterIdx f l' (S i) else filterIdx f l' (S i)
  end.

Definition activeCubies (st : State) (axis : Axis) (index : Z) : list nat :=
  filterIdx (inLayer st axis index) (cubies st) 0.

(** [parent.attach(mesh)] for a new parent whose world matrix is the
    identity (the pivot right after its reset, or the scene): the local
    transform of the mesh becomes its world transform, decomposed again
    into a position and XYZ Euler angles. *)
Definition attach (st : State) (newParent : Parent) (m : Mesh) : Mesh :=
  match pose m with
  | None => mkMesh None newParent
  | Some p =>
      match parent m with
      | InScene =>
          mkMesh (Some (mkPose (position p)
                               (eulerFromMatrix (eulerMatrix (rotation p)))))
                 newParent
      | InPivot =>
          match pivotMatrix st with
          | Some r =>
              mkMesh (Some (mkPose
                        (addV (mulMV r (position p)) (pivotPosition st))
                        (eulerFromMatrix (mulMM r (eulerMatrix (rotation p))))))
                     newParent
          | None => mkMesh None newParent
          end
      end
  end.

Definition snapPosition (x : R) : R := IZR (js_round (x / (102 / 100))) * (102 / 100).
Definition snapRotation (x : R) : R := IZR (js_round (x / (PI / 2))) * (PI / 2).

Definition snapV (f : R -> R) (v : V3) : V3 := mkV3 (f (vx v)) (f (vy v)) (f (vz v)).

(** The rounding of positions and rotations after the detach. *)
Definition snapMesh (m : Mesh) : Mesh :=
  match pose m with
  | None => m
  | Some p =>
      mkMesh (Some (mkPose (snapV snapPosition (position p))
                           (snapV snapRotation (rotation p))))
             (parent m)
  end.

(** [indices.forEach(i => cubies[i] = f(cubies[i]))]. *)
Fixpoint updateAt (f : Mesh -> Mesh) (i : nat) (l : list Mesh) : list Mesh :=
  match l, i with
  | [], _ => []
  | m :: l', O => f m :: l'
  | m :: l', S i' => m :: updateAt f i' l'
  end.

Definition forEachActive (f : Mesh -> Mesh) (active : list nat) (l : list Mesh)
  : list Mesh :=
  fold_left (fun acc i => updateAt f i acc) active l.

Definition setPivotAxis (axis : Axis) (v : num) (r : NV3) : NV3 :=
  match axis with
  | AxX => mkNV3 v (ny r) (nz r)
  | AxY => mkNV3 (nx r) v (nz r)
  | AxZ => mkNV3 (nx r) (ny r) v
  end.

Definition pivotAxis (axis : Axis) (r : NV3) : num :=
  match axis with AxX => nx r | AxY => ny r | AxZ => nz r end.

(** ** Promises and the animation closure *)

Inductive jsval : Type := JUndefined | JBool (b : bool).

(** What [animateRotation] closes over. *)
Record Anim : Type := mkAnim {
  animAxis : Axis;
  targetRotation : R;
  startTime : Z;
  animDuration : num;
  animActive : list nat }.

(** A promise is either settled with a value or waits for the next frame
    of the animation it belongs to. *)
Inductive Outcome : Type :=
| Resolved (v : jsval)
| Pending (a : Anim).

(** ** [rotateLayer] and [rotateFace] *)

Section Component.

(** Whether the host passed an [onMoveComplete] prop. *)
Variable onMoveComplete : bool.

Definition progressAt (a : Anim) (now : Z) : num :=
  num_min (js_div (IZR (now - startTime a)) (animDuration a)) (Fin 1).

Definition easedAt (a : Anim) (now : Z) : num :=
  num_sub (Fin 1) (num_pow3 (num_sub (Fin 1) (progressAt a now))).

Definition currentAngleAt (a : Anim) (now : Z) : num :=
  num_mul (Fin (targetRotation a)) (easedAt a now).

(** The cleanup branch of [animateRotation]: snap the pivot to the target
    angle, detach and round every active cubie, reset the pivot, clear
    the flag, call the observer. *)
Definition cleanup (a : Anim) (st : State) : State :=
  let snapped :=
    mkState (cubies st)
            (setPivotAxis (animAxis a) (Fin (targetRotation a)) (pivotRotation st))
            (pivotPosition st) (isAnimating st) (moveCompleteCalls st) in
  let detached :=
    forEachActive (fun m => snapMesh (attach snapped InScene m))
                  (animActive a) (cubies snapped) in
  mkState detached zeroNV (pivotPosition st) false
          (if onMoveComplete then S (moveCompleteCalls st) else moveCompleteCalls st).

(** One call of [animateRotation], with [now] the value of [Date.now()]. *)
Definition animateRotation (a : Anim) (now : Z) (st : State) : State * Outcome :=
  let driven :=
    mkState (cubies st)
            (setPivotAxis (animAxis a) (currentAngleAt a now) (pivotRotation st))
            (pivotPosition st) (isAnimating st) (moveCompleteCalls st) in
  if num_ltb (progressAt a now) (Fin 1)
  then (driven, Pending a)
  else (cleanup a driven, Resolved (JBool true)).

(** [rotateLayer(axis, index, direction, duration)]; [start] and [now] are
    the two readings of [Date.now()] taken before the first frame. *)
Definition rotateLayer (st : State) (axis : Axis) (index direction : Z)
    (duration : num) (start now : Z) : State * Outcome :=
  if isAnimating st then (st, Resolved (JBool false))
  else
    let active := activeCubies st axis index in
    let reset := mkState (cubies st) zeroNV zeroV true (moveCompleteCalls st) in
    let grouped :=
      mkState (forEachActive (attach reset InPivot) active (cubies reset))
              zeroNV zeroV true (moveCompleteCalls st) in
    let a := mkAnim axis (PI / 2 * IZR direction) start duration active in
    animateRotation a now grouped.

(** The [switch] of [rotateFace] followed by the inversion of [dir]. *)
Definition faceMove (face : string) (invert : bool) : option (Axis * Z * Z) :=
  let table : option (Axis * Z * Z) :=
    (if String.eqb face "R" then Some (AxX, 1, -1)
     else if String.eqb face "L" then Some (AxX, -1, 1)
     else if String.eqb face "U" then Some (AxY, 1, -1)
     else if String.eqb face "D" then Some (AxY, -1, 1)
     else if String.eqb face "F" then Some (AxZ, 1, -1)
     else if String.eqb face "B" then Some (AxZ, -1, 1)
     else None)%Z in
  match table with
  | Some (axis, index, dir) =>
      Some (axis, index, if invert then (dir * -1)%Z else dir)
  | None => None
  end.

Definition rotateFace (st : State) (face : string) (invert : bool)
    (duration : num) (start now : Z) : State * Outcome :=
  match faceMove face invert with
  | None => (st, Resolved JUndefined)
  | Some (axis, index, dir) => rotateLayer st axis index dir duration start now
  end.

(** The frames that [requestAnimationFrame] schedules while the promise
    is pending; [times] are the successive readings of [Date.now()]. *)
Fixpoint runFrames (times : list Z) (r : State * Outcome) : State * Outcome :=
  match times, r with
  | now :: rest, (st, Pending a) => runFrames rest (animateRotation a now st)
  | _, _ => r
  end.

(** A whole move: the call and the frames that follow it. *)
Definition move (st : State) (face : string) (invert : bool)
    (duration : num) (start now : Z) (times : list Z) : State * Outcome :=
  runFrames times (rotateFace st face invert duration start now).

End Component.

(** ** Predicates used in the statements *)

(** What a pending promise keeps fixed, and what a settled one has done. *)
Definition frameEffect (cb : bool) (st0 : State) (r : State * Outcome) : Prop :=
  match snd r with
  | Pending _ =>
      isAnimating (fst r) = isAnimating st0 /\
      moveCompleteCalls (fst r) = moveCompleteCalls st0
  | Resolved v =>
      v = JBool true /\
      isAnimating (fst r) = false /\
      pivotRotation (fst r) = zeroNV /\
      moveCompleteCalls (fst r) =
        (moveCompleteCalls st0 + if cb then 1 else 0)%nat
  end.


(** The state the component is in right after [rotateFace('R')] has been
    accepted on a fresh cube with a duration of 300 ms. *)
Definition midMoveState : State :=
  fst (rotateFace false initialState "R" false (Fin 300) 0 0).

(** A grid cell, by its three layer indices. *)
Definition Cell : Type := (Z * Z * Z)%type.

Definition cellCoord (a : Axis) (c : Cell) : Z :=
  match a, c with
  | AxX, (x, _, _) => x
  | AxY, (_, y, _) => y
  | AxZ, (_, _, z) => z
  end.

(** The 27 canonical cells, in the order of the build loop. *)
Definition allCells : list Cell :=
  flat_map (fun x => flat_map (fun y => map (fun z => (x, y, z)) gridIndices)
                              gridIndices) gridIndices.

(** The canonical grid point of a cell. *)
Definition cellPoint (c : Cell) : V3 :=
  mkV3 (IZR (cellCoord AxX c) * TOTAL_SIZE)
       (IZR (cellCoord AxY c) * TOTAL_SIZE)
       (IZR (cellCoord AxZ c) * TOTAL_SIZE).

(** A cubie that hangs under the scene with each position component
    within [tol] of the grid point of cell [c]. *)
Definition nearCell (tol : R) (c : Cell) (m : Mesh) : Prop :=
  parent m = InScene /\
  exists p, pose m = Some p /\
    forall a, Rabs (axisCoord a (position p) - axisCoord a (cellPoint c)) <= tol.

(** The grid invariant up to [tol]: the cubies sit, one per cell, within
    [tol] of the 27 canonical grid points. *)
Definition nearGrid (tol : R) (st : State) : Prop :=
  exists cells, Permutation cells allCells /\ Forall2 (nearCell tol) cells (cubies st).

(** A cubie one third of a world unit off the x = +1 layer. *)
Definition strayMesh : Mesh :=
  mkMesh (Some (mkPose (mkV3 (132 / 100) 0 0) zeroV)) InScene.

(** An R turn of 300 ms on a fresh cube, sampled once more after 150 ms. *)
Definition halfwayRun : State * Outcome :=
  runFrames false [150%Z] (rotateLayer false initialState AxX 1 (-1) (Fin 300) 0 0).

(** [rotateFace('R', false, -300)] on a fresh cube, sampled once more
    after 30 ms. *)
Definition negativeDurationRun : State * Outcome :=
  runFrames false [30%Z] (rotateFace false initialState "R" false (Fin (-300)) 0 0).

(** ** Quarter turns

    On the grid every angle is a whole number of quarter turns and every
    rotation matrix has entries -1, 0, 1.  The definitions below are the
    integer images of the real-valued ones above; the lemmas of the second
    part relate the two. *)

Definition qcos (k : Z) : Z :=
  match (k mod 4)%Z with 0%Z => 1 | 2%Z => -1 | _ => 0 end%Z.

Definition qsin (k : Z) : Z :=
  match (k mod 4)%Z with 1%Z => 1 | 3%Z => -1 | _ => 0 end%Z.

Definition Quarters : Type := (Z * Z * Z)%type.

Record ZM33 : Type := mkZM33 {
  z11 : Z; z12 : Z; z13 : Z;
  z21 : Z; z22 : Z; z23 : Z;
  z31 : Z; z32 : Z; z33 : Z }.

Definition toR (m : ZM33) : M33 :=
  mkM33 (IZR (z11 m)) (IZR (z12 m)) (IZR (z13 m))
        (IZR (z21 m)) (IZR (z22 m)) (IZR (z23 m))
        (IZR (z31 m)) (IZR (z32 m)) (IZR (z33 m)).

Definition zmulMM (a b : ZM33) : ZM33 :=
  mkZM33
    (z11 a * z11 b + z12 a * z21 b + z13 a * z31 b)
    (z11 a * z12 b + z12 a * z22 b + z13 a * z32 b)
    (z11 a * z13 b + z12 a * z23 b + z13 a * z33 b)
    (z21 a * z11 b + z22 a * z21 b + z23 a * z31 b)
    (z21 a * z12 b + z22 a * z22 b + z23 a * z32 b)
    (z21 a * z13 b + z22 a * z23 b + z23 a * z33 b)
    (z31 a * z11 b + z32 a * z21 b + z33 a * z31 b)
    (z31 a * z12 b + z32 a * z22 b + z33 a * z32 b)
    (z31 a * z13 b + z32 a * z23 b + z33 a * z33 b)%Z.

Definition zmulMV (m : ZM33) (c : Cell) : Cell :=
  match c with
  | (x, y, z) =>
      (z11 m * x + z12 m * y + z13 m * z,
       z21 m * x + z22 m * y + z23 m * z,
       z31 m * x + z32 m * y + z33 m * z)%Z
  end.

(** [eulerMatrix] at quarter turns. *)
Definition zEuler (q : Quarters) : ZM33 :=
  match q with
  | (x, y, z) =>
      let a := qcos x in let b := qsin x in
      let c := qcos y in let d := qsin y in
      let e := qcos z in let f := qsin z in
      mkZM33 (c * e)                (- (c * f))             d
             (a * f + b * e * d)    (a * e - b * f * d)     (- (b * c))
             (b * f - a * e * d)    (b * e + a * f * d)     (a * c)
  end%Z.

(** [atan2] in quarter turns, for a point on one of the four half axes. *)
Definition zatan2 (y x : Z) : Z :=
  (if 0 <? x then 0
   else if x <? 0 then 2
   else if 0 <? y then 1
   else if y <? 0 then -1
   else 0)%Z.

(** [eulerFromMatrix] in quarter turns. *)
Definition zEulerFromMatrix (m : ZM33) : Quarters :=
  if (z13 m =? 0)%Z
  then (zatan2 (- z23 m) (z33 m), z13 m, zatan2 (- z12 m) (z11 m))
  else (zatan2 (z32 m) (z22 m), z13 m, 0%Z).

Definition onHalfAxis (y x : Z) : bool :=
  ((y =? 0) && ((x =? 1) || (x =? -1)) || (x =? 0) && ((y =? 1) || (y =? -1)))%Z%bool.

(** The matrices on which [zEulerFromMatrix] follows [eulerFromMatrix]. *)
Definition aligned (m : ZM33) : bool :=
  if (z13 m =? 0)%Z
  then onHalfAxis (- z23 m) (z33 m) && onHalfAxis (- z12 m) (z11 m)
  else ((z13 m =? 1) || (z13 m =? -1))%Z && onHalfAxis (z32 m) (z22 m).

Definition quarterAngles (q : Quarters) : V3 :=
  match q with
  | (x, y, z) => mkV3 (IZR x * (PI / 2)) (IZR y * (PI / 2)) (IZR z * (PI / 2))
  end.

Definition axisQuarters (axis : Axis) (k : Z) : Quarters :=
  match axis with
  | AxX => (k, 0, 0)
  | AxY => (0, k, 0)
  | AxZ => (0, 0, k)
  end%Z.

(** The pivot matrix at the end of a move: [k] quarter turns about [axis]. *)
Definition zAxisTurn (axis : Axis) (k : Z) : ZM33 := zEuler (axisQuarters axis k).

(** A cubie on the grid: its cell and its Euler angles in quarter turns. *)
Definition ZCubie : Type := (Cell * Quarters)%type.

Definition gridMesh (zc : ZCubie) : Mesh :=
  mkMesh (Some (mkPose (cellPoint (fst zc)) (quarterAngles (snd zc)))) InScene.

(** One completed layer move on a grid cubie. *)
Definition zturn (axis : Axis) (index dir : Z) (zc : ZCubie) : ZCubie :=
  if (cellCoord axis (fst zc) =? index)%Z
  then (zmulMV (zAxisTurn axis dir) (fst zc),
        zEulerFromMatrix
          (zmulMM (zAxisTurn axis dir)
                  (zEuler (zEulerFromMatrix (zEuler (snd zc))))))
  else zc.

(** The state of the pivot alone, as [attach] reads it. *)
Definition pivotAt (r : NV3) : State := mkState [] r zeroV true 0.

(** One completed layer move on a mesh: if the filter selects it, it is
    attached to the reset pivot, detached from the turned pivot and
    rounded. *)
Definition turnMesh (st : State) (axis : Axis) (index dir : Z) (m : Mesh) : Mesh :=
  if inLayer st axis index m
  then snapMesh
         (attach (pivotAt (setPivotAxis axis (Fin (PI / 2 * IZR dir)) zeroNV)) InScene
                 (attach (pivotAt zeroNV) InPivot m))
  else m.

(** The quarter-turn residues and the Euler matrices they give. *)
Definition residues : list Z := [0; 1; 2; 3]%Z.

Definition allQuarters : list Quarters :=
  flat_map (fun x => flat_map (fun y => map (fun z => (x, y, z)) residues) residues)
           residues.

Definition allEuler : list ZM33 := map zEuler allQuarters.

Definition allAxes : list Axis := [AxX; AxY; AxZ].

Definition zm_eqb (a b : ZM33) : bool :=
  ((z11 a =? z11 b) && (z12 a =? z12 b) && (z13 a =? z13 b) &&
   (z21 a =? z21 b) && (z22 a =? z22 b) && (z23 a =? z23 b) &&
   (z31 a =? z31 b) && (z32 a =? z32 b) && (z33 a =? z33 b))%Z%bool.

Definition cell_eqb (a b : Cell) : bool :=
  match a, b with
  | (x, y, z), (x', y', z') => ((x =? x') && (y =? y') && (z =? z'))%Z%bool
  end.

(** ** The orbit camera

    [updateCamera] and the three mouse handlers, over exact reals like
    the rest of the file.  The refs they touch are
    [cameraRef] (here the position of the camera, [None] while the ref is
    still [null]), [isDragging], [previousMousePosition], [thetaRef] and
    [phiRef]. *)

Record Controls : Type := mkControls {
  cameraPosition : option V3;
  isDragging : bool;
  previousMousePosition : R * R;
  thetaRef : R;
  phiRef : R }.

(** A mouse event, by its [clientX] and [clientY]. *)
Definition MouseEvent : Type := (R * R)%type.

Definition radius : R := 9.
Definition rotateSpeed : R := 5 / 1000.

(** [Math.acos(4 / radius)] and [Math.atan2(5, 6)], the angles the refs
    start with, and the camera position set by the scene setup. *)
Definition initialControls : Controls :=
  mkControls (Some (mkV3 5 4 6)) false (0, 0) (atan2 5 6) (acos (4 / radius)).

Definition clampPhi (phi : R) : R := Rmax (1 / 10) (Rmin (PI - 1 / 10) phi).

Definition updateCamera (c : Controls) : Controls :=
  match cameraPosition c with
  | None => c
  | Some _ =>
      let theta := thetaRef c in
      let clampedPhi := clampPhi (phiRef c) in
      mkControls
        (Some (mkV3 (radius * sin clampedPhi * sin theta)
                    (radius * cos clampedPhi)
                    (radius * sin clampedPhi * cos theta)))
        (isDragging c) (previousMousePosition c) theta clampedPhi
  end.

Definition handleMouseDown (e : MouseEvent) (c : Controls) : Controls :=
  mkControls (cameraPosition c) true e (thetaRef c) (phiRef c).

Definition handleMouseMove (e : MouseEvent) (c : Controls) : Controls :=
  if negb (isDragging c) then c
  else
    let deltaX := fst e - fst (previousMousePosition c) in
    let deltaY := snd e - snd (previousMousePosition c) in
    updateCamera
      (mkControls (cameraPosition c) (isDragging c) e
                  (thetaRef c - deltaX * rotateSpeed)
                  (phiRef c - deltaY * rotateSpeed)).

Definition handleMouseUp (c : Controls) : Controls :=
  mkControls (cameraPosition c) false (previousMousePosition c)
             (thetaRef c) (phiRef c).

(** The events the canvas forwards; [onMouseLeave] is wired to
    [handleMouseUp] as well. *)
Inductive MouseInput : Type :=
| MouseDown (e : MouseEvent)
| MouseMove (e : MouseEvent)
| MouseUp
| MouseLeave.

Definition handleInput (c : Controls) (i : MouseInput) : Controls :=
  match i with
  | MouseDown e => handleMouseDown e c
  | MouseMove e => handleMouseMove e c
  | MouseUp | MouseLeave => handleMouseUp c
  end.

Definition handleInputs (c : Controls) (l : list MouseInput) : Controls :=
  fold_left handleInput l c.

Definition normSq (v : V3) : R := vx v * vx v + vy v * vy v + vz v * vz v.

(** The orbit the camera is meant to stay on: polar angle within the
    clamp, distance [radius] from the origin, off the vertical axis.
    The distance is exact over the reals; the doubles the component
    stores are within rounding error of it. *)
Definition onOrbit (c : Controls) : Prop :=
  1 / 10 <= phiRef c <= PI - 1 / 10 /\
  exists q, cameraPosition c = Some q /\
            normSq q = radius * radius /\
            0 < vx q * vx q + vz q * vz q.

(** ** The build loop: materials and logical coordinates *)

(** The sticker colours, in the order Right, Left, Up, Down, Front, Back. *)
Definition colors : list Z :=
  [0xb91c1c; 0xea580c; 0xffffff; 0xfacc15; 0x16a34a; 0x2563eb]%Z.

(** [faceMaterials[i]] or the black core material. *)
Inductive Material : Type :=
| FaceMaterial (i : nat)
| BlackMat.

(** The six materials of the cubie with logical coordinates x, y, z, in
    the face order of [BoxGeometry]: +x, -x, +y, -y, +z, -z. *)
Definition cubieMaterials (x y z : Z) : list Material :=
  [ if (x =? 1)%Z then FaceMaterial 0 else BlackMat;
    if (x =? -1)%Z then FaceMaterial 1 else BlackMat;
    if (y =? 1)%Z then FaceMaterial 2 else BlackMat;
    if (y =? -1)%Z then FaceMaterial 3 else BlackMat;
    if (z =? 1)%Z then FaceMaterial 4 else BlackMat;
    if (z =? -1)%Z then FaceMaterial 5 else BlackMat ].

(** What the build loop pushes besides the transform of [buildCubies]:
    [userData] (the logical coordinates) and the materials. *)
Definition buildMaterials : list (Cell * list Material) :=
  flat_map (fun x =>
    flat_map (fun y =>
      map (fun z => ((x, y, z), cubieMaterials x y z)) gridIndices)
      gridIndices)
    gridIndices.

Definition isColored (m : Material) : bool :=
  match m with FaceMaterial _ => true | BlackMat => false end.

Definition usesFace (i : nat) (m : Material) : bool :=
  match m with FaceMaterial j => Nat.eqb i j | BlackMat => false end.

Definition coloredCount (ms : list Material) : nat :=
  List.length (filter isColored ms).

(** How many of the three logical coordinates are not zero. *)
Definition outerCoords (c : Cell) : nat :=
  match c with
  | (x, y, z) =>
      ((if (x =? 0)%Z then 0 else 1) + (if (y =? 0)%Z then 0 else 1) +
       (if (z =? 0)%Z then 0 else 1))%nat
  end.

(** The position of cell (x, y, z) in the array the loop fills. *)
Definition cubieIndex (c : Cell) : nat :=
  match c with
  | (x, y, z) => Z.to_nat (9 * (x + 1) + 3 * (y + 1) + (z + 1))
  end.

(** The closure of an R turn of 300 ms started at clock reading 1000. *)
Definition sampleAnim : Anim :=
  mkAnim AxX (PI / 2 * IZR (-1)) 1000 (Fin 300) (activeCubies initialState AxX 1).

(** ** Grid states *)

(** The cell a layer move sends a cell to. *)
Definition cellTurn (axis : Axis) (index dir : Z) (c : Cell) : Cell :=
  if (cellCoord axis c =? index)%Z then zmulMV (zAxisTurn axis dir) c else c.

Fixpoint remove_cell (c : Cell) (l : list Cell) : option (list Cell) :=
  match l with
  | [] => None
  | x :: r =>
      if cell_eqb c x then Some r
      else match remove_cell c r with
           | Some r' => Some (x :: r')
           | None => None
           end
  end.

(** A decision procedure for "is a rearrangement of". *)
Fixpoint perm_check (l l' : list Cell) : bool :=
  match l with
  | [] => match l' with [] => true | _ => false end
  | c :: r =>
      match remove_cell c l' with
      | Some l'' => perm_check r l''
      | None => false
      end
  end.

(** The exact grid invariant: every cubie hangs under the scene at the
    grid point of a cell, one cubie per cell, with Euler angles that are
    whole numbers of quarter turns. *)
Definition onGrid (st : State) : Prop :=
  exists zs, cubies st = map gridMesh zs /\ Permutation (map fst zs) allCells.

(** Two meshes with the same parent, position and orientation. *)
Definition sameTransform (m m' : Mesh) : Prop :=
  parent m = parent m' /\
  exists p p', pose m = Some p /\ pose m' = Some p' /\
               position p = position p' /\
               eulerMatrix (rotation p) = eulerMatrix (rotation p').

(** The moves on which the round trips are stated. *)
Definition allTurns : list (Axis * Z * Z) :=
  flat_map (fun axis => flat_map (fun index => map (fun dir => (axis, index, dir))
                                                   [1; -1]%Z) [1; -1]%Z) allAxes.

(** The states the cube is in between moves: the initial one and those
    in which a move has settled. *)
Inductive reachable (cb : bool) : State -> Prop :=
| reach_initial : reachable cb initialState
| reach_move (st : State) (face : string) (invert : bool) (duration : num)
             (start now : Z) (times : list Z) (st' : State) :
    reachable cb st ->
    move cb st face invert duration start now times = (st', Resolved (JBool true)) ->
    reachable cb st'.

(** A turn of 300 ms, run to its end by one frame sampled at 300 ms. *)
Definition turnOnce (face : string) (invert : bool) (st : State) : State :=
  fst (move false st face invert (Fin 300) 0 0 [300%Z]).

(** The Euler angles of a pivot turned by [angle] about [axis] only. *)
Definition axisAngles (axis : Axis) (angle : R) : V3 :=
  match axis with
  | AxX => mkV3 angle 0 0
  | AxY => mkV3 0 angle 0
  | AxZ => mkV3 0 0 angle
  end.

(** The outward direction of each of the six material slots of a box,
    in the order the build loop comments them: Right, Left, Up, Down,
    Front, Back, that is +x, -x, +y, -y, +z, -z. *)
Definition slotNormal (i : nat) : Cell :=
  match i with
  | 0%nat => (1, 0, 0)
  | 1%nat => (-1, 0, 0)
  | 2%nat => (0, 1, 0)
  | 3%nat => (0, -1, 0)
  | 4%nat => (0, 0, 1)
  | _ => (0, 0, -1)
  end%Z.

Definition addCell (a b : Cell) : Cell :=
  match a, b with
  | (x, y, z), (x', y', z') => (x + x', y + y', z + z')%Z
  end.

(** Whether the cube has another cubie right next to cell [c] on the
    side of slot [i]; if not, that side of the cubie is on the surface. *)
Definition hasNeighbour (c : Cell) (i : nat) : bool :=
  existsb (cell_eqb (addCell c (slotNormal i))) allCells.

(** The point [p] turned by [angle] about a coordinate axis, counter
    clockwise seen from the positive end of the axis. *)
Definition rotateAbout (axis : Axis) (angle : R) (p : V3) : V3 :=
  match axis with
  | AxX => mkV3 (vx p)
                (vy p * cos angle - vz p * sin angle)
                (vy p * sin angle + vz p * cos angle)
  | AxY => mkV3 (vx p * cos angle + vz p * sin angle)
                (vy p)
                (vz p * cos angle - vx p * sin angle)
  | AxZ => mkV3 (vx p * cos angle - vy p * sin angle)
                (vx p * sin angle + vy p * cos angle)
                (vz p)
  end.
(** * Properties *)

(** ** Deciding comparisons of reals *)

Lemma Rltb_true (a b : R) : a < b -> Rltb a b = true.
Proof. intros H; unfold Rltb; destruct (Rlt_dec a b); [reflexivity | contradiction]. Qed.

Lemma Rltb_false (a b : R) : b <= a -> Rltb a b = false.
Proof. intros H; unfold Rltb; destruct (Rlt_dec a b); [lra | reflexivity]. Qed.

Lemma Rltb_spec (a b : R) : Rltb a b = true <-> a < b.
Proof.
  unfold Rltb; destruct (Rlt_dec a b); split; intros; try assumption;
    try reflexivity; try discriminate; contradiction.
Qed.

Lemma Reqb_false (a b : R) : a <> b -> Reqb a b = false.
Proof. intros H; unfold Reqb; destruct (Req_dec_T a b); [contradiction | reflexivity]. Qed.

Lemma Reqb_true (a b : R) : a = b -> Reqb a b = true.
Proof. intros H; unfold Reqb; destruct (Req_dec_T a b); [reflexivity | contradiction]. Qed.

(** ** The notation table *)

(** C3: [rotateFace] hands each face letter to [rotateLayer] with the
    fixed axis, layer index and base direction of the table (R: x, +1, -1;
    L: x, -1, +1; U: y, +1, -1; D: y, -1, +1; F: z, +1, -1; B: z, -1, +1), and
    with [invert] set it hands over the same axis and layer index with
    the direction negated, whatever the state, the duration and the clock
    readings are. *)
Theorem rotateFace_table :
  forall (cb : bool) (st : State) (duration : num) (start now : Z),
    let call face invert := rotateFace cb st face invert duration start now in
    let layer axis index dir := rotateLayer cb st axis index dir duration start now in
    (call "R"%string false = layer AxX 1 (-1) /\ call "R"%string true = layer AxX 1 (- (-1)))%Z /\
    (call "L"%string false = layer AxX (-1) 1 /\ call "L"%string true = layer AxX (-1) (- 1))%Z /\
    (call "U"%string false = layer AxY 1 (-1) /\ call "U"%string true = layer AxY 1 (- (-1)))%Z /\
    (call "D"%string false = layer AxY (-1) 1 /\ call "D"%string true = layer AxY (-1) (- 1))%Z /\
    (call "F"%string false = layer AxZ 1 (-1) /\ call "F"%string true = layer AxZ 1 (- (-1)))%Z /\
    (call "B"%string false = layer AxZ (-1) 1 /\ call "B"%string true = layer AxZ (-1) (- 1))%Z /\
    (forall face,
        faceMove face true =
        match faceMove face false with
        | Some (axis, index, dir) => Some (axis, index, (- dir)%Z)
        | None => None
        end).
Proof.
  intros cb st duration start now call layer.
  repeat split; try reflexivity.
  intros face. unfold faceMove.
  repeat match goal with
         | |- context [String.eqb ?a ?b] => destruct (String.eqb a b)
         end;
    reflexivity.
Qed.

(** ** Rejected and ignored calls *)

Lemma faceMove_none (face : string) (invert : bool) :
  face <> "R"%string -> face <> "L"%string -> face <> "U"%string ->
  face <> "D"%string -> face <> "F"%string -> face <> "B"%string ->
  faceMove face invert = None.
Proof.
  intros HR HL HU HD HF HB. unfold faceMove.
  apply String.eqb_neq in HR, HL, HU, HD, HF, HB.
  rewrite HR, HL, HU, HD, HF, HB. reflexivity.
Qed.

Lemma rotateLayer_busy cb st axis index dir duration start now :
  isAnimating st = true ->
  rotateLayer cb st axis index dir duration start now = (st, Resolved (JBool false)).
Proof. intros H; unfold rotateLayer; rewrite H; reflexivity. Qed.

Lemma animateRotation_cases cb a now st :
  let driven :=
    mkState (cubies st)
            (setPivotAxis (animAxis a) (currentAngleAt a now) (pivotRotation st))
            (pivotPosition st) (isAnimating st) (moveCompleteCalls st) in
  (num_ltb (progressAt a now) (Fin 1) = true /\
   animateRotation cb a now st = (driven, Pending a)) \/
  (num_ltb (progressAt a now) (Fin 1) = false /\
   animateRotation cb a now st = (cleanup cb a driven, Resolved (JBool true))).
Proof.
  intros driven. unfold animateRotation. fold driven.
  destruct (num_ltb (progressAt a now) (Fin 1)); [left | right]; split; reflexivity.
Qed.

Lemma runFrames_resolved cb times st v :
  runFrames cb times (st, Resolved v) = (st, Resolved v).
Proof. destruct times; reflexivity. Qed.

Lemma animateRotation_effect cb a now st :
  frameEffect cb st (animateRotation cb a now st).
Proof.
  unfold frameEffect, animateRotation.
  destruct (num_ltb (progressAt a now) (Fin 1)); simpl.
  - split; reflexivity.
  - repeat split. destruct cb; lia.
Qed.

Lemma runFrames_effect cb times :
  forall st0 st a,
    isAnimating st = isAnimating st0 ->
    moveCompleteCalls st = moveCompleteCalls st0 ->
    frameEffect cb st0 (runFrames cb times (st, Pending a)).
Proof.
  induction times as [| now rest IH]; intros st0 st a Hb Hc.
  - simpl. split; assumption.
  - simpl.
    pose proof (animateRotation_effect cb a now st) as He.
    destruct (animateRotation cb a now st) as [st1 [v | a1]] eqn:E.
    + rewrite runFrames_resolved. unfold frameEffect in *; simpl in *.
      rewrite <- Hc. exact He.
    + unfold frameEffect in He; simpl in He. destruct He as [He1 He2].
      apply IH; congruence.
Qed.

Lemma rotateLayer_idle cb st axis index dir duration start now :
  isAnimating st = false ->
  rotateLayer cb st axis index dir duration start now =
  let active := activeCubies st axis index in
  let reset := mkState (cubies st) zeroNV zeroV true (moveCompleteCalls st) in
  animateRotation cb (mkAnim axis (PI / 2 * IZR dir) start duration active) now
    (mkState (forEachActive (attach reset InPivot) active (cubies st))
             zeroNV zeroV true (moveCompleteCalls st)).
Proof. intros H; unfold rotateLayer; rewrite H; reflexivity. Qed.

Lemma progressAt_finite a now d :
  animDuration a = Fin d -> d <> 0 ->
  progressAt a now = Fin (Rmin (IZR (now - startTime a) / d) 1).
Proof.
  intros Hd Hnz. unfold progressAt, js_div. rewrite Hd, (Reqb_false _ _ Hnz).
  reflexivity.
Qed.

Lemma midMoveState_busy : isAnimating midMoveState = true.
Proof.
  unfold midMoveState, rotateFace.
  change (faceMove "R" false) with (Some (AxX, 1%Z, (-1)%Z)). cbv iota beta.
  rewrite rotateLayer_idle by reflexivity. cbv zeta.
  match goal with |- isAnimating (fst (animateRotation ?cb ?a ?n ?s)) = _ =>
    pose proof (animateRotation_effect cb a n s) as He;
    destruct (animateRotation_cases cb a n s) as [[Hlt Heq] | [Hlt Heq]]
  end.
  - rewrite Heq in *. reflexivity.
  - exfalso. erewrite progressAt_finite in Hlt by (reflexivity || (simpl; lra)).
    simpl in Hlt. rewrite Rltb_true in Hlt; [discriminate |].
    unfold Rmin. destruct (Rle_dec _ _); lra.
Qed.

(** C4, as amended: while the busy flag is set, a call of [rotateFace]
    returns at once with a settled promise and leaves the whole state
    (cubies, pivot, busy flag, observer count) as it was; the promise
    holds [false] for the six face letters and [undefined] for any other
    face argument. *)
Theorem rotateFace_busy_rejected :
  forall (cb : bool) (st : State) (face : string) (invert : bool)
         (duration : num) (start now : Z),
    isAnimating st = true ->
    fst (rotateFace cb st face invert duration start now) = st /\
    snd (rotateFace cb st face invert duration start now) =
      match faceMove face invert with
      | Some _ => Resolved (JBool false)
      | None => Resolved JUndefined
      end.
Proof.
  intros cb st face invert duration start now Hbusy.
  unfold rotateFace.
  destruct (faceMove face invert) as [[[axis index] dir] |].
  - rewrite rotateLayer_busy by assumption. split; reflexivity.
  - split; reflexivity.
Qed.

Lemma rotateFace_busy_rejected_witness :
  isAnimating midMoveState = true /\
  fst (rotateFace true midMoveState "U" true (Fin 300) 40 40) = midMoveState /\
  snd (rotateFace true midMoveState "U" true (Fin 300) 40 40) = Resolved (JBool false).
Proof.
  split; [exact midMoveState_busy |].
  exact (rotateFace_busy_rejected true midMoveState "U" true (Fin 300) 40 40
           midMoveState_busy).
Defined.

(** C4, as stated, fails: with the busy flag set, a call whose face
    argument is the empty string does not settle its promise with
    [false]. *)
Lemma rotateFace_busy_not_false :
  isAnimating midMoveState = true /\
  snd (rotateFace true midMoveState "" false (Fin 300) 40 40) <> Resolved (JBool false).
Proof.
  split; [exact midMoveState_busy |].
  unfold rotateFace. simpl. discriminate.
Qed.

(** C5, as amended: for a face argument outside U, D, L, R, F, B the call
    returns at once, changes nothing in the state (no cubie, no pivot
    field, not the busy flag) and its promise is settled with
    [undefined], a falsy value, not with [false]. *)
Theorem rotateFace_unknown_face :
  forall (cb : bool) (st : State) (face : string) (invert : bool)
         (duration : num) (start now : Z),
    face <> "R"%string -> face <> "L"%string -> face <> "U"%string ->
    face <> "D"%string -> face <> "F"%string -> face <> "B"%string ->
    rotateFace cb st face invert duration start now = (st, Resolved JUndefined).
Proof.
  intros cb st face invert duration start now HR HL HU HD HF HB.
  unfold rotateFace. rewrite faceMove_none by assumption. reflexivity.
Qed.

Lemma rotateFace_unknown_face_witness :
  rotateFace true initialState "" false (Fin 300) 0 0 =
  (initialState, Resolved JUndefined).
Proof.
  apply (rotateFace_unknown_face true initialState "" false (Fin 300) 0 0);
    discriminate.
Defined.

(** C5, as stated, fails: the promise returned for the empty face string
    is not settled with [false]. *)
Lemma rotateFace_unknown_not_false :
  snd (rotateFace true initialState "" false (Fin 300) 0 0) <> Resolved (JBool false).
Proof. unfold rotateFace. simpl. discriminate. Qed.

(** ** Completion of an accepted move *)

Lemma move_unfold_idle cb st face invert duration start now times axis index dir :
  faceMove face invert = Some (axis, index, dir) ->
  isAnimating st = false ->
  move cb st face invert duration start now times =
  let active := activeCubies st axis index in
  let reset := mkState (cubies st) zeroNV zeroV true (moveCompleteCalls st) in
  runFrames cb (now :: times)
    (mkState (forEachActive (attach reset InPivot) active (cubies st))
             zeroNV zeroV true (moveCompleteCalls st),
     Pending (mkAnim axis (PI / 2 * IZR dir) start duration active)).
Proof.
  intros Hf Hidle. unfold move, rotateFace. rewrite Hf.
  rewrite rotateLayer_idle by assumption. reflexivity.
Qed.

(** What each outcome of a call says about the state it leaves. *)
Lemma move_outcome_effects :
  forall (cb : bool) (st : State) (face : string) (invert : bool)
         (duration : num) (start now : Z) (times : list Z),
    let r := move cb st face invert duration start now times in
    match snd r with
    | Resolved (JBool true) =>
        isAnimating st = false /\ faceMove face invert <> None /\
        isAnimating (fst r) = false /\
        pivotRotation (fst r) = zeroNV /\
        moveCompleteCalls (fst r) =
          (moveCompleteCalls st + if cb then 1 else 0)%nat
    | Resolved _ =>
        fst r = st /\ (isAnimating st = true \/ faceMove face invert = None)
    | Pending _ =>
        isAnimating st = false /\ faceMove face invert <> None /\
        moveCompleteCalls (fst r) = moveCompleteCalls st
    end.
Proof.
  intros cb st face invert duration start now times r. subst r.
  destruct (faceMove face invert) as [[[axis index] dir] |] eqn:Hf.
  - destruct (isAnimating st) eqn:Hb.
    + unfold move, rotateFace. rewrite Hf, rotateLayer_busy by assumption.
      rewrite runFrames_resolved. simpl. auto.
    + rewrite (move_unfold_idle _ _ _ _ _ _ _ _ _ _ _ Hf Hb). cbv zeta.
      match goal with |- context [runFrames cb ?ts (?s, Pending ?a)] =>
        pose proof (runFrames_effect cb ts s s a eq_refl eq_refl) as He;
        destruct (runFrames cb ts (s, Pending a)) as [st' [v | a']]
      end; unfold frameEffect in He; simpl in He |- *.
      * destruct He as [-> [H1 [H2 H3]]]. repeat split; auto. discriminate.
      * destruct He as [_ He]. repeat split; auto. discriminate.
  - unfold move, rotateFace. rewrite Hf, runFrames_resolved. simpl. auto.
Qed.

Lemma runFrames_reaches cb d t post :
  forall pre st a,
    animDuration a = Fin d -> 0 < d -> d <= IZR (t - startTime a) ->
    exists st', runFrames cb (pre ++ t :: post) (st, Pending a) =
                (st', Resolved (JBool true)).
Proof.
  induction pre as [| now pre IH]; intros st a Hd Hpos Hlate; simpl.
  - destruct (animateRotation_cases cb a t st) as [[Hlt Heq] | [Hlt Heq]].
    + exfalso. rewrite (progressAt_finite a t d Hd) in Hlt by lra.
      simpl in Hlt. apply Rltb_spec in Hlt.
      assert (1 <= IZR (t - startTime a) / d).
      { apply Rmult_le_reg_r with d; [assumption |]. field_simplify; lra. }
      unfold Rmin in Hlt. destruct (Rle_dec _ _); lra.
    + rewrite Heq, runFrames_resolved. eauto.
  - destruct (animateRotation_cases cb a now st) as [[Hlt Heq] | [Hlt Heq]];
      rewrite Heq.
    + apply IH; assumption.
    + rewrite runFrames_resolved. eauto.
Qed.

(** An accepted move with a positive duration settles with [true] as soon
    as one frame is sampled [duration] milliseconds or more after the
    start. *)
Lemma move_completes cb st face invert d start now pre t post :
  isAnimating st = false -> faceMove face invert <> None ->
  0 < d -> d <= IZR (t - start) ->
  exists st', move cb st face invert (Fin d) start now (pre ++ t :: post) =
              (st', Resolved (JBool true)).
Proof.
  intros Hidle Hf Hpos Hlate.
  destruct (faceMove face invert) as [[[axis index] dir] |] eqn:E; [| congruence].
  rewrite (move_unfold_idle _ _ _ _ _ _ _ _ _ _ _ E Hidle). cbv zeta.
  apply (runFrames_reaches cb d t post (now :: pre)); simpl; auto.
Qed.

(** C9: an accepted move completes normally: with a positive duration, as
    soon as a frame is sampled [duration] milliseconds or more after the
    start, the promise settles with [true], the busy flag is clear, the
    pivot rotation is back at (0, 0, 0) and the observer has been called
    exactly once more than before the call (not at all when the host
    passed none).  Conversely a promise settles with [true] only for an
    accepted call, and then with these effects; it settles with anything
    else only for a call made while busy or with an unknown face, and
    then nothing in the state, the observer count included, has changed;
    and while the promise is pending the observer has not been called. *)
Theorem move_completion :
  forall (cb : bool) (st : State) (face : string) (invert : bool),
    (isAnimating st = false -> faceMove face invert <> None ->
     forall (d : R) (start now : Z) (pre : list Z) (t : Z) (post : list Z),
       0 < d -> d <= IZR (t - start) ->
       exists st',
         move cb st face invert (Fin d) start now (pre ++ t :: post) =
           (st', Resolved (JBool true)) /\
         isAnimating st' = false /\
         pivotRotation st' = zeroNV /\
         moveCompleteCalls st' = (moveCompleteCalls st + if cb then 1 else 0)%nat) /\
    (forall (duration : num) (start now : Z) (times : list Z),
       let r := move cb st face invert duration start now times in
       match snd r with
       | Resolved (JBool true) =>
           isAnimating st = false /\ faceMove face invert <> None /\
           isAnimating (fst r) = false /\
           pivotRotation (fst r) = zeroNV /\
           moveCompleteCalls (fst r) =
             (moveCompleteCalls st + if cb then 1 else 0)%nat
       | Resolved _ =>
           fst r = st /\ (isAnimating st = true \/ faceMove face invert = None)
       | Pending _ =>
           isAnimating st = false /\ faceMove face invert <> None /\
           moveCompleteCalls (fst r) = moveCompleteCalls st
       end).
Proof.
  intros cb st face invert. split.
  - intros Hidle Hface d start now pre t post Hpos Hlate.
    destruct (move_completes cb st face invert d start now pre t post
                Hidle Hface Hpos Hlate) as [st' Hm].
    exists st'. split; [exact Hm |].
    pose proof (move_outcome_effects cb st face invert (Fin d) start now
                  (pre ++ t :: post)) as He.
    cbv zeta in He. rewrite Hm in He. simpl in He.
    destruct He as [_ [_ [Hb [Hp Hc]]]]. auto.
  - intros duration start now times.
    apply move_outcome_effects.
Qed.

Lemma move_completion_witness :
  exists st',
    move true initialState "R" false (Fin 300) 0 0 ([150%Z] ++ 320%Z :: []) =
      (st', Resolved (JBool true)) /\
    isAnimating st' = false /\
    pivotRotation st' = zeroNV /\
    moveCompleteCalls st' = 1%nat.
Proof.
  apply (proj1 (move_completion true initialState "R" false) eq_refl
           ltac:(intros H; vm_compute in H; discriminate)
           300 0%Z 0%Z [150%Z] 320%Z []).
  - lra.
  - simpl. lra.
Defined.

(** ** Layer selection *)

Lemma inLayer_spec st axis index m :
  inLayer st axis index m = true <->
  exists wp, getWorldPosition st m = Some wp /\
             Rabs (axisCoord axis wp - IZR index * TOTAL_SIZE) < 1 / 2.
Proof.
  unfold inLayer, TOTAL_SIZE, CUBE_SIZE, SPACING.
  destruct (getWorldPosition st m) as [wp |].
  - rewrite Rltb_spec. split.
    + intros H. exists wp. split; [reflexivity | lra].
    + intros [wp' [E H]]. inversion E; subst. lra.
  - split; [discriminate | intros [wp [E _]]; discriminate].
Qed.

Lemma filterIdx_In f l :
  forall k i, In i (filterIdx f l k) <->
              exists m, nth_error l (i - k) = Some m /\ f m = true /\ (k <= i)%nat.
Proof.
  induction l as [| x l IH]; intros k i; simpl.
  - split; [contradiction |]. intros [m [H _]]. destruct (i - k)%nat; discriminate.
  - assert (Hrec : In i (filterIdx f l (S k)) <->
              exists m, nth_error (x :: l) (i - k) = Some m /\ f m = true /\ (S k <= i)%nat).
    { rewrite IH. split; intros [m [H1 [H2 H3]]]; exists m; repeat split; auto.
      - replace (i - k)%nat with (S (i - S k)) by lia. exact H1.
      - replace (i - k)%nat with (S (i - S k)) in H1 by lia. exact H1. }
    destruct (f x) eqn:Hfx; simpl; rewrite Hrec; split.
    + intros [<- | [m [H1 [H2 H3]]]].
      * exists x. rewrite Nat.sub_diag. auto.
      * exists m. repeat split; auto. lia.
    + intros [m [H1 [H2 H3]]]. destruct (Nat.eq_dec k i) as [-> | Hne]; [left; reflexivity |].
      right. exists m. repeat split; auto. lia.
    + intros [m [H1 [H2 H3]]]. exists m. repeat split; auto. lia.
    + intros [m [H1 [H2 H3]]]. destruct (Nat.eq_dec k i) as [-> | Hne].
      * rewrite Nat.sub_diag in H1. simpl in H1. congruence.
      * exists m. repeat split; auto. lia.
Qed.

Lemma filterIdx_length f l : forall k, List.length (filterIdx f l k) = List.length (filter f l).
Proof.
  induction l as [| x l IH]; intros k; simpl; [reflexivity |].
  destruct (f x); simpl; rewrite IH; reflexivity.
Qed.

(** C10: the filter keeps a cubie exactly when its world coordinate on
    the move's axis is less than 0.5 away from 1.02 * index; the constant
    [epsilon] = 0.1 plays no part, so a cubie whose deviation lies in
    [0.1, 0.5) is selected all the same. *)
Theorem selection_uses_half_unit :
  forall (st : State) (axis : Axis) (index : Z) (m : Mesh) (wp : V3),
    getWorldPosition st m = Some wp ->
    (inLayer st axis index m = true <->
     Rabs (axisCoord axis wp - 102 / 100 * IZR index) < 5 / 10) /\
    epsilon = 1 / 10 /\
    (epsilon <= Rabs (axisCoord axis wp - 102 / 100 * IZR index) < 5 / 10 ->
     inLayer st axis index m = true).
Proof.
  intros st axis index m wp Hwp.
  assert (Hiff : inLayer st axis index m = true <->
                 Rabs (axisCoord axis wp - 102 / 100 * IZR index) < 5 / 10).
  { rewrite inLayer_spec. unfold TOTAL_SIZE, CUBE_SIZE, SPACING.
    replace (102 / 100 * IZR index) with (IZR index * (1 + 2 / 100)) by lra.
    split.
    - intros [wp' [E H]]. rewrite Hwp in E. inversion E; subst. lra.
    - intros H. exists wp. split; [assumption | lra]. }
  split; [exact Hiff |]. split; [reflexivity |].
  intros [_ H]. apply Hiff. exact H.
Qed.

Lemma selection_uses_half_unit_witness :
  epsilon <= Rabs (132 / 100 - 102 / 100 * IZR 1) < 5 / 10 /\
  inLayer initialState AxX 1 strayMesh = true.
Proof.
  assert (Hdev : epsilon <= Rabs (132 / 100 - 102 / 100 * IZR 1) < 5 / 10).
  { unfold epsilon. rewrite Rabs_pos_eq; lra. }
  split; [exact Hdev |].
  exact (proj2 (proj2 (selection_uses_half_unit initialState AxX 1 strayMesh
                         (mkV3 (132 / 100) 0 0) eq_refl)) Hdev).
Defined.

Lemma Rabs_lt_iff (x b : R) : Rabs x < b <-> - b < x < b.
Proof.
  split.
  - intros H. apply Rabs_def2 in H. lra.
  - intros [H1 H2]. apply Rabs_def1; lra.
Qed.

Lemma Rabs_le_iff (x b : R) : Rabs x <= b <-> - b <= x <= b.
Proof.
  split.
  - intros H. unfold Rabs in H. destruct (Rcase_abs x); lra.
  - intros [H1 H2]. unfold Rabs. destruct (Rcase_abs x); lra.
Qed.

(** Two integers whose images are less than one unit apart are equal. *)
Lemma IZR_close (a b : Z) : -1 < IZR a - IZR b < 1 -> a = b.
Proof.
  intros [H1 H2]. rewrite <- minus_IZR in H1, H2.
  apply lt_IZR in H2. change (-1) with (IZR (-1)) in H1. apply lt_IZR in H1. lia.
Qed.

Lemma IZR_apart (a b : Z) : a <> b -> IZR a - IZR b <= -1 \/ 1 <= IZR a - IZR b.
Proof.
  intros Hne. rewrite <- minus_IZR.
  destruct (Z_lt_le_dec (a - b) 0) as [Hlt | Hge].
  - left. change (-1) with (IZR (-1)). apply IZR_le. lia.
  - right. apply IZR_le. lia.
Qed.

Lemma nearCell_inLayer st tol axis index c m :
  tol < 1 / 2 -> nearCell tol c m ->
  inLayer st axis index m = Z.eqb (cellCoord axis c) index.
Proof.
  intros Htol [Hpar [p [Hpose Hnear]]].
  specialize (Hnear axis). apply Rabs_le_iff in Hnear.
  assert (Hc : axisCoord axis (cellPoint c) = IZR (cellCoord axis c) * TOTAL_SIZE).
  { destruct axis; reflexivity. }
  rewrite Hc in Hnear. unfold TOTAL_SIZE, CUBE_SIZE, SPACING in Hnear.
  assert (Hwp : getWorldPosition st m = Some (position p)).
  { unfold getWorldPosition. rewrite Hpose, Hpar. reflexivity. }
  unfold inLayer. rewrite Hwp.
  destruct (Z.eqb_spec (cellCoord axis c) index) as [Heq | Hne].
  - rewrite Heq in Hnear. apply Rltb_true. apply Rabs_lt_iff. lra.
  - apply Rltb_false. apply IZR_apart in Hne.
    unfold Rabs. destruct (Rcase_abs _); lra.
Qed.

Lemma filter_Forall2_length st tol axis index :
  tol < 1 / 2 ->
  forall cells ms, Forall2 (nearCell tol) cells ms ->
    List.length (filter (inLayer st axis index) ms) =
    List.length (filter (fun c => Z.eqb (cellCoord axis c) index) cells).
Proof.
  intros Htol cells ms H. induction H as [| c m cells ms Hcm _ IH]; [reflexivity |].
  simpl. rewrite (nearCell_inLayer st tol axis index c m Htol Hcm).
  destruct (Z.eqb _ _); simpl; rewrite IH; reflexivity.
Qed.

Lemma Permutation_filter_length {A} (f : A -> bool) (l l' : list A) :
  Permutation l l' -> List.length (filter f l) = List.length (filter f l').
Proof.
  intros H. induction H as [| x l l' _ IH | x y l | l l' l'' _ IH1 _ IH2]; simpl.
  - reflexivity.
  - destruct (f x); simpl; rewrite IH; reflexivity.
  - destruct (f x), (f y); reflexivity.
  - congruence.
Qed.

Lemma allCells_layer_count axis index :
  List.length (filter (fun c => Z.eqb (cellCoord axis c) index) allCells) =
  if (Z.eqb index (-1) || Z.eqb index 0 || Z.eqb index 1)%bool then 9%nat else 0%nat.
Proof.
  destruct (Z.eqb_spec index (-1)) as [-> | H1]; [destruct axis; reflexivity |].
  destruct (Z.eqb_spec index 0) as [-> | H0]; [destruct axis; reflexivity |].
  destruct (Z.eqb_spec index 1) as [-> | H2]; [destruct axis; reflexivity |].
  assert (Hrange : forallb (fun c => (cellCoord axis c =? -1) || (cellCoord axis c =? 0)
                                    || (cellCoord axis c =? 1))%Z allCells = true)
    by (destruct axis; reflexivity).
  assert (Hf : forall c, In c allCells -> (cellCoord axis c =? index)%Z = false).
  { intros c Hc. apply (proj1 (forallb_forall _ _) Hrange) in Hc.
    apply Z.eqb_neq. intros Heq. rewrite Heq in Hc.
    apply orb_true_iff in Hc. destruct Hc as [Hc | Hc];
      [apply orb_true_iff in Hc; destruct Hc as [Hc | Hc] |];
      apply Z.eqb_eq in Hc; congruence. }
  rewrite (filter_ext_in _ (fun _ => false) _ Hf).
  simpl orb. cbv iota. clear Hrange Hf.
  induction allCells as [| c l IH]; [reflexivity | exact IH].
Qed.

Lemma nearGrid_selection_count st tol axis index :
  tol < 1 / 2 -> nearGrid tol st ->
  List.length (activeCubies st axis index) =
  if (Z.eqb index (-1) || Z.eqb index 0 || Z.eqb index 1)%bool then 9%nat else 0%nat.
Proof.
  intros Htol [cells [Hperm Hnear]].
  unfold activeCubies. rewrite filterIdx_length.
  rewrite (filter_Forall2_length st tol axis index Htol cells _ Hnear).
  rewrite (Permutation_filter_length _ _ _ Hperm).
  apply allCells_layer_count.
Qed.

Ltac near_cell_tac :=
  split; [reflexivity |];
  eexists; split; [reflexivity |];
  intros a; destruct a; simpl;
  match goal with |- Rabs ?x <= _ => replace x with 0 by lra end;
  rewrite Rabs_R0; lra.

Lemma nearGrid_initial tol : 0 <= tol -> nearGrid tol initialState.
Proof.
  intros Htol. exists allCells. split; [apply Permutation_refl |].
  unfold initialState, buildCubies, allCells, gridIndices. simpl.
  repeat (apply Forall2_cons; [near_cell_tac |]). apply Forall2_nil.
Qed.

(** C2: an index is selected exactly when the cubie at that index has a
    world coordinate on the move's axis less than the selection
    tolerance 0.5 away from index * 1.02, a tolerance below half the
    layer distance; when the cubies sit one per cell within [tol] < 0.5 of
    the canonical grid points, every axis and every index in -1, 0, 1
    selects exactly 9 cubies and every other index selects none. *)
Theorem layer_selection :
  forall (st : State) (axis : Axis) (index : Z),
    (forall i, In i (activeCubies st axis index) <->
       exists m wp, nth_error (cubies st) i = Some m /\
                    getWorldPosition st m = Some wp /\
                    Rabs (axisCoord axis wp - IZR index * TOTAL_SIZE) < 1 / 2) /\
    1 / 2 < TOTAL_SIZE / 2 /\
    (forall tol, tol < 1 / 2 -> nearGrid tol st ->
       (index = (-1)%Z \/ index = 0%Z \/ index = 1%Z ->
        List.length (activeCubies st axis index) = 9%nat) /\
       (~ (index = (-1)%Z \/ index = 0%Z \/ index = 1%Z) ->
        activeCubies st axis index = [])).
Proof.
  intros st axis index. split; [| split].
  - intros i. unfold activeCubies. rewrite filterIdx_In. rewrite Nat.sub_0_r. split.
    + intros [m [Hn [Hf _]]]. apply inLayer_spec in Hf. destruct Hf as [wp [Hw Hd]].
      exists m, wp. auto.
    + intros [m [wp [Hn [Hw Hd]]]]. exists m. split; [assumption |]. split; [| lia].
      apply inLayer_spec. exists wp. auto.
  - unfold TOTAL_SIZE, CUBE_SIZE, SPACING. lra.
  - intros tol Htol Hgrid.
    pose proof (nearGrid_selection_count st tol axis index Htol Hgrid) as Hcount.
    split.
    + intros [-> | [-> | ->]]; exact Hcount.
    + intros Hout.
      destruct (Z.eqb_spec index (-1)); [tauto |].
      destruct (Z.eqb_spec index 0); [tauto |].
      destruct (Z.eqb_spec index 1); [tauto |].
      simpl in Hcount. apply length_zero_iff_nil. exact Hcount.
Qed.

Lemma layer_selection_witness :
  1 / 10 < 1 / 2 /\ nearGrid (1 / 10) initialState /\
  List.length (activeCubies initialState AxY 1) = 9%nat /\
  activeCubies initialState AxY 2 = [].
Proof.
  assert (Htol : 1 / 10 < 1 / 2) by lra.
  assert (Hgrid : nearGrid (1 / 10) initialState) by (apply nearGrid_initial; lra).
  split; [exact Htol |]. split; [exact Hgrid |]. split.
  - apply (proj1 (proj2 (proj2 (layer_selection initialState AxY 1))
                    (1 / 10) Htol Hgrid)).
    right; right; reflexivity.
  - apply (proj2 (proj2 (proj2 (layer_selection initialState AxY 2))
                    (1 / 10) Htol Hgrid)).
    intros [H | [H | H]]; discriminate.
Defined.

(** ** The frames of an animation *)

Lemma setPivotAxis_twice axis v w r :
  setPivotAxis axis v (setPivotAxis axis w r) = setPivotAxis axis v r.
Proof. destruct axis; reflexivity. Qed.

Lemma pivotAxis_set axis v r : pivotAxis axis (setPivotAxis axis v r) = v.
Proof. destruct axis; reflexivity. Qed.

Lemma pivotAxis_set_other axis ax v r :
  ax <> axis -> pivotAxis ax (setPivotAxis axis v r) = pivotAxis ax r.
Proof. destruct axis, ax; intros H; try reflexivity; congruence. Qed.

Lemma cleanup_pivot_axis cb a c w r pp b n :
  cleanup cb a (mkState c (setPivotAxis (animAxis a) w r) pp b n) =
  cleanup cb a (mkState c r pp b n).
Proof. unfold cleanup. simpl. rewrite setPivotAxis_twice. reflexivity. Qed.

Lemma last_cons {A} (x d : A) (l : list A) : last (x :: l) d = last l x.
Proof.
  revert x d. induction l as [| y l IH]; intros x d; [reflexivity |].
  change (last (x :: y :: l) d) with (last (y :: l) d).
  rewrite (IH y d), (IH y x). reflexivity.
Qed.

(** What a run of frames leaves behind: while pending, the state of the
    start with the pivot driven to the angle of the last frame; once
    settled, the cleanup of the state of the start. *)
Lemma runFrames_trace cb :
  forall times now st a,
    let r := runFrames cb times (animateRotation cb a now st) in
    match snd r with
    | Pending a' =>
        a' = a /\
        num_ltb (progressAt a (last times now)) (Fin 1) = true /\
        fst r = mkState (cubies st)
                  (setPivotAxis (animAxis a) (currentAngleAt a (last times now))
                                (pivotRotation st))
                  (pivotPosition st) (isAnimating st) (moveCompleteCalls st)
    | Resolved v => v = JBool true /\ fst r = cleanup cb a st
    end.
Proof.
  induction times as [| t rest IH]; intros now st a r; subst r.
  - simpl runFrames.
    destruct (animateRotation_cases cb a now st) as [[Hlt Heq] | [Hlt Heq]];
      rewrite Heq; simpl.
    + auto.
    + split; [reflexivity |]. rewrite cleanup_pivot_axis. destruct st; reflexivity.
  - destruct (animateRotation_cases cb a now st) as [[Hlt Heq] | [Hlt Heq]];
      rewrite Heq.
    + change (runFrames cb (t :: rest) (?s, Pending a))
        with (runFrames cb rest (animateRotation cb a t s)).
      match goal with |- context [animateRotation cb a t ?s] =>
        specialize (IH t s a) end.
      cbv zeta in IH. rewrite last_cons.
      destruct (runFrames cb rest _) as [st' [v | a']]; simpl in IH |- *.
      * destruct IH as [-> ->]. split; [reflexivity |].
        rewrite cleanup_pivot_axis. destruct st; reflexivity.
      * destruct IH as [-> [H1 ->]]. rewrite setPivotAxis_twice. auto.
    + rewrite runFrames_resolved. simpl. split; [reflexivity |].
      rewrite cleanup_pivot_axis. destruct st; reflexivity.
Qed.

Lemma runFrames_pending cb :
  forall times now st a,
    (forall t, In t (now :: times) -> num_ltb (progressAt a t) (Fin 1) = true) ->
    snd (runFrames cb times (animateRotation cb a now st)) = Pending a.
Proof.
  induction times as [| t rest IH]; intros now st a Hall;
    destruct (animateRotation_cases cb a now st) as [[Hlt Heq] | [Hlt Heq]];
    rewrite Heq; try (rewrite (Hall now (or_introl eq_refl)) in Hlt; discriminate).
  - reflexivity.
  - change (runFrames cb (t :: rest) (?s, Pending a))
      with (runFrames cb rest (animateRotation cb a t s)).
    apply IH. intros t' Ht'. apply Hall. right. exact Ht'.
Qed.

Lemma num_ltb_below_one p : num_ltb p (Fin 1) = true -> num_ltb (Fin 1) p = false.
Proof.
  destruct p as [x | | |]; simpl; try reflexivity; try discriminate.
  intros H. apply Rltb_spec in H. apply Rltb_false. lra.
Qed.

(** C8, as amended: at every frame that leaves the move animating, the
    progress is not above 1, the eased value is 1 - (1 - progress)^3, the
    pivot angle about the move's axis is (pi/2) * direction * eased and
    the pivot's two other angles are zero; the progress is also at least
    0, so that all three values are finite and the progress lies in
    [0, 1], when the duration is positive and the clock reading of the
    frame is not earlier than the start time. *)
Theorem animating_frame :
  forall (cb : bool) (st : State) (axis : Axis) (index dir : Z) (duration : num)
         (start now : Z) (times : list Z) (st' : State) (a : Anim),
    runFrames cb times (rotateLayer cb st axis index dir duration start now) =
      (st', Pending a) ->
    let progress := progressAt a (last times now) in
    let eased := easedAt a (last times now) in
    num_ltb (Fin 1) progress = false /\
    eased = num_sub (Fin 1) (num_pow3 (num_sub (Fin 1) progress)) /\
    pivotAxis axis (pivotRotation st') = num_mul (Fin (PI / 2 * IZR dir)) eased /\
    (forall ax, ax <> axis -> pivotAxis ax (pivotRotation st') = Fin 0) /\
    (forall d, duration = Fin d -> 0 < d -> (start <= last times now)%Z ->
       exists p, progress = Fin p /\ 0 <= p <= 1 /\
                 eased = Fin (1 - (1 - p) ^ 3) /\
                 pivotAxis axis (pivotRotation st') =
                   Fin (PI / 2 * IZR dir * (1 - (1 - p) ^ 3))).
Proof.
  intros cb st axis index dir duration start now times st' a Hrun progress eased.
  destruct (isAnimating st) eqn:Hb.
  { rewrite rotateLayer_busy, runFrames_resolved in Hrun by assumption. discriminate. }
  rewrite rotateLayer_idle in Hrun by assumption. cbv zeta in Hrun.
  match type of Hrun with runFrames cb times (animateRotation cb ?a0 now ?s) = _ =>
    pose proof (runFrames_trace cb times now s a0) as Ht end.
  cbv zeta in Ht. rewrite Hrun in Ht. simpl in Ht. destruct Ht as [Ha [Hlt Hst]].
  subst a st'. simpl pivotRotation.
  fold progress in Hlt.
  assert (Hang : pivotAxis axis (setPivotAxis axis
                   (currentAngleAt (mkAnim axis (PI / 2 * IZR dir) start duration
                                      (activeCubies st axis index)) (last times now))
                   zeroNV) = num_mul (Fin (PI / 2 * IZR dir)) eased).
  { rewrite pivotAxis_set. reflexivity. }
  split; [apply num_ltb_below_one; exact Hlt |].
  split; [reflexivity |].
  split; [exact Hang |].
  split.
  - intros ax Hax. rewrite pivotAxis_set_other by assumption. destruct ax; reflexivity.
  - intros d Hd Hpos Hclock.
    assert (Hp : progress = Fin (Rmin (IZR (last times now - start) / d) 1)).
    { subst progress. erewrite progressAt_finite; [reflexivity | exact Hd | lra]. }
    exists (Rmin (IZR (last times now - start) / d) 1).
    assert (Hq : 0 <= IZR (last times now - start) / d).
    { apply Rmult_le_pos; [apply IZR_le; lia |].
      left. apply Rinv_0_lt_compat. exact Hpos. }
    split; [exact Hp |]. split.
    + unfold Rmin. destruct (Rle_dec _ _); lra.
    + assert (He : eased = Fin (1 - (1 - Rmin (IZR (last times now - start) / d) 1) ^ 3)).
      { subst eased. unfold easedAt. fold progress. rewrite Hp. reflexivity. }
      split; [exact He |]. rewrite Hang, He. reflexivity.
Qed.

Lemma halfwayRun_pending :
  halfwayRun =
  (fst halfwayRun,
   Pending (mkAnim AxX (PI / 2 * IZR (-1)) 0 (Fin 300) (activeCubies initialState AxX 1))).
Proof.
  rewrite (surjective_pairing halfwayRun) at 1. f_equal.
  unfold halfwayRun. rewrite rotateLayer_idle by reflexivity. cbv zeta.
  apply runFrames_pending. intros t Ht.
  erewrite progressAt_finite by (reflexivity || (simpl; lra)).
  simpl. apply Rltb_true.
  destruct Ht as [<- | [<- | []]]; simpl; unfold Rmin; destruct (Rle_dec _ _); lra.
Qed.

Lemma animating_frame_witness :
  exists p,
    progressAt (mkAnim AxX (PI / 2 * IZR (-1)) 0 (Fin 300)
                  (activeCubies initialState AxX 1)) 150 = Fin p /\
    0 <= p <= 1 /\
    pivotAxis AxX (pivotRotation (fst halfwayRun)) =
      Fin (PI / 2 * IZR (-1) * (1 - (1 - p) ^ 3)).
Proof.
  destruct (proj2 (proj2 (proj2 (proj2
    (animating_frame false initialState AxX 1 (-1) (Fin 300) 0 0 [150%Z]
       (fst halfwayRun) _ halfwayRun_pending)))) 300 eq_refl ltac:(lra) ltac:(simpl; lia))
    as [p [Hp [Hr [_ Ha]]]].
  exists p. split; [exact Hp |]. split; [exact Hr | exact Ha].
Defined.

(** C8, as stated, fails: with a negative duration the frame sampled
    30 ms into the move is still animating and its progress is -0.1,
    below the interval [0, 1]. *)
Lemma progress_below_zero :
  exists st' a,
    negativeDurationRun = (st', Pending a) /\
    progressAt a 30 = Fin (- (1 / 10)) /\ - (1 / 10) < 0.
Proof.
  set (a := mkAnim AxX (PI / 2 * IZR (-1)) 0 (Fin (-300)) (activeCubies initialState AxX 1)).
  assert (Hp : forall t, progressAt a t = Fin (Rmin (IZR (t - 0) / -300) 1)).
  { intros t. apply progressAt_finite; [reflexivity | lra]. }
  exists (fst negativeDurationRun), a. split; [| split].
  - rewrite (surjective_pairing negativeDurationRun) at 1. f_equal.
    unfold negativeDurationRun, rotateFace.
    change (faceMove "R" false) with (Some (AxX, 1%Z, (-1)%Z)). cbv iota beta.
    rewrite rotateLayer_idle by reflexivity. cbv zeta. fold a.
    apply runFrames_pending. intros t Ht. rewrite Hp. simpl. apply Rltb_true.
    destruct Ht as [<- | [<- | []]]; simpl; unfold Rmin; destruct (Rle_dec _ _); lra.
  - rewrite Hp. f_equal. simpl. unfold Rmin. destruct (Rle_dec _ _); lra.
  - lra.
Qed.

(** ** The cubies after a completed move *)

Lemma updateAt_app f pre :
  forall m l, updateAt f (List.length pre) (pre ++ m :: l) = pre ++ f m :: l.
Proof.
  induction pre as [| x pre IH]; intros m l; simpl; [reflexivity |].
  rewrite IH. reflexivity.
Qed.

Lemma forEach_filterIdx_app (f : Mesh -> Mesh) (g : Mesh -> bool) :
  forall l l2 pre,
    List.length l = List.length l2 ->
    fold_left (fun acc i => updateAt f i acc) (filterIdx g l (List.length pre)) (pre ++ l2) =
    pre ++ map (fun mm => if g (fst mm) then f (snd mm) else snd mm) (combine l l2).
Proof.
  induction l as [| m l IH]; intros l2 pre Hlen; destruct l2 as [| m2 l2];
    try discriminate; simpl.
  - reflexivity.
  - injection Hlen as Hlen.
    assert (Hnext : forall x, pre ++ x :: l2 = (pre ++ [x]) ++ l2).
    { intros x. rewrite <- app_assoc. reflexivity. }
    assert (Hs : S (List.length pre) = List.length (pre ++ [m2])).
    { rewrite length_app. simpl. lia. }
    assert (Hs' : S (List.length pre) = List.length (pre ++ [f m2])).
    { rewrite length_app. simpl. lia. }
    destruct (g m); simpl.
    + rewrite updateAt_app, (Hnext (f m2)), Hs', IH by assumption.
      rewrite <- app_assoc. reflexivity.
    + rewrite (Hnext m2), Hs, IH by assumption.
      rewrite <- app_assoc. reflexivity.
Qed.

Lemma forEachActive_filterIdx f g l l2 :
  List.length l = List.length l2 ->
  forEachActive f (filterIdx g l 0) l2 =
  map (fun mm => if g (fst mm) then f (snd mm) else snd mm) (combine l l2).
Proof.
  intros Hlen. unfold forEachActive.
  apply (forEach_filterIdx_app f g l l2 [] Hlen).
Qed.

Lemma combine_map_r {A B} (h : A -> B) (l : list A) :
  combine l (map h l) = map (fun x => (x, h x)) l.
Proof. induction l as [| x l IH]; simpl; [reflexivity | rewrite IH; reflexivity]. Qed.

Lemma forEachActive_twice f1 f2 g l :
  forEachActive f2 (filterIdx g l 0) (forEachActive f1 (filterIdx g l 0) l) =
  map (fun m => if g m then f2 (f1 m) else m) l.
Proof.
  rewrite (forEachActive_filterIdx f1 g l l eq_refl).
  replace (combine l l) with (map (fun x => (x, x)) l)
    by (rewrite <- (combine_map_r (fun x => x) l), map_id; reflexivity).
  rewrite map_map. simpl.
  rewrite forEachActive_filterIdx by (rewrite length_map; reflexivity).
  rewrite combine_map_r, map_map. simpl.
  apply map_ext. intros m. destruct (g m); reflexivity.
Qed.

Lemma attach_pivotAt s p m :
  pivotPosition s = zeroV ->
  attach s p m = attach (pivotAt (pivotRotation s)) p m.
Proof.
  intros Hz. unfold attach, pivotMatrix, pivotAt. simpl. rewrite Hz. reflexivity.
Qed.

Lemma cleanup_grouped cb st axis index dir start duration :
  let active := activeCubies st axis index in
  let reset := mkState (cubies st) zeroNV zeroV true (moveCompleteCalls st) in
  cleanup cb (mkAnim axis (PI / 2 * IZR dir) start duration active)
    (mkState (forEachActive (attach reset InPivot) active (cubies st))
             zeroNV zeroV true (moveCompleteCalls st)) =
  mkState (map (turnMesh st axis index dir) (cubies st)) zeroNV zeroV false
          (if cb then S (moveCompleteCalls st) else moveCompleteCalls st).
Proof.
  intros active reset. unfold cleanup. simpl. f_equal.
  subst active. unfold activeCubies.
  rewrite forEachActive_twice. apply map_ext. intros m. unfold turnMesh.
  destruct (inLayer st axis index m); reflexivity.
Qed.

(** The state in which an accepted move settles. *)
Lemma move_result cb st face invert duration start now times axis index dir st' v :
  isAnimating st = false ->
  faceMove face invert = Some (axis, index, dir) ->
  move cb st face invert duration start now times = (st', Resolved v) ->
  v = JBool true /\
  st' = mkState (map (turnMesh st axis index dir) (cubies st)) zeroNV zeroV false
                (if cb then S (moveCompleteCalls st) else moveCompleteCalls st).
Proof.
  intros Hidle Hf Hmove.
  rewrite (move_unfold_idle _ _ _ _ _ _ _ _ _ _ _ Hf Hidle) in Hmove. cbv zeta in Hmove.
  change (runFrames cb (now :: times) (?s, Pending ?a))
    with (runFrames cb times (animateRotation cb a now s)) in Hmove.
  match type of Hmove with runFrames cb times (animateRotation cb ?a now ?s) = _ =>
    pose proof (runFrames_trace cb times now s a) as Ht end.
  cbv zeta in Ht. rewrite Hmove in Ht. simpl in Ht. destruct Ht as [-> ->].
  split; [reflexivity |]. apply cleanup_grouped.
Qed.

(** ** Trigonometry at quarter turns *)

Lemma cos_sin_period_Z (x : R) (q : Z) :
  cos (x + 2 * IZR q * PI) = cos x /\ sin (x + 2 * IZR q * PI) = sin x.
Proof.
  destruct (Z_le_gt_dec 0 q) as [Hq | Hq].
  - rewrite <- (Z2Nat.id q Hq), <- INR_IZR_INZ.
    split; [apply cos_period | apply sin_period].
  - assert (Hn : (0 <= - q)%Z) by lia.
    assert (Hx : x = (x + 2 * IZR q * PI) + 2 * INR (Z.to_nat (- q)) * PI).
    { rewrite INR_IZR_INZ, (Z2Nat.id _ Hn), opp_IZR. ring. }
    split.
    + rewrite Hx at 2. symmetry. apply cos_period.
    + rewrite Hx at 2. symmetry. apply sin_period.
Qed.

Lemma quarter_split (k : Z) :
  IZR k * (PI / 2) = IZR (k mod 4) * (PI / 2) + 2 * IZR (k / 4) * PI.
Proof.
  rewrite (Z.div_mod k 4) at 1 by lia. rewrite plus_IZR, mult_IZR. field.
Qed.

Lemma mod4_cases (k : Z) :
  (k mod 4 = 0 \/ k mod 4 = 1 \/ k mod 4 = 2 \/ k mod 4 = 3)%Z.
Proof. pose proof (Z.mod_pos_bound k 4 ltac:(lia)). lia. Qed.

Lemma cos_quarter (k : Z) : cos (IZR k * (PI / 2)) = IZR (qcos k).
Proof.
  rewrite quarter_split. rewrite (proj1 (cos_sin_period_Z _ _)). unfold qcos.
  destruct (mod4_cases k) as [H | [H | [H | H]]]; rewrite H.
  - replace (0 * (PI / 2)) with 0 by ring. apply cos_0.
  - replace (1 * (PI / 2)) with (PI / 2) by ring. apply cos_PI2.
  - replace (2 * (PI / 2)) with PI by field. apply cos_PI.
  - apply cos_3PI2.
Qed.

Lemma sin_quarter (k : Z) : sin (IZR k * (PI / 2)) = IZR (qsin k).
Proof.
  rewrite quarter_split. rewrite (proj2 (cos_sin_period_Z _ _)). unfold qsin.
  destruct (mod4_cases k) as [H | [H | [H | H]]]; rewrite H.
  - replace (0 * (PI / 2)) with 0 by ring. apply sin_0.
  - replace (1 * (PI / 2)) with (PI / 2) by ring. apply sin_PI2.
  - replace (2 * (PI / 2)) with PI by field. apply sin_PI.
  - apply sin_3PI2.
Qed.

Lemma eulerMatrix_quarter (q : Quarters) :
  eulerMatrix (quarterAngles q) = toR (zEuler q).
Proof.
  destruct q as [[x y] z]. unfold eulerMatrix, quarterAngles, toR, zEuler. simpl.
  rewrite !cos_quarter, !sin_quarter.
  repeat rewrite ?plus_IZR, ?minus_IZR, ?mult_IZR, ?opp_IZR. reflexivity.
Qed.

Lemma toR_mulMM (a b : ZM33) : mulMM (toR a) (toR b) = toR (zmulMM a b).
Proof.
  unfold mulMM, toR, zmulMM. simpl.
  repeat rewrite ?plus_IZR, ?mult_IZR. reflexivity.
Qed.

Lemma js_round_IZR (k : Z) : js_round (IZR k) = k.
Proof.
  unfold js_round. symmetry. apply Int_part_spec. lra.
Qed.

Lemma snapRotation_quarter (k : Z) : snapRotation (IZR k * (PI / 2)) = IZR k * (PI / 2).
Proof.
  unfold snapRotation.
  replace (IZR k * (PI / 2) / (PI / 2)) with (IZR k)
    by (field; apply PI_neq0).
  rewrite js_round_IZR. reflexivity.
Qed.

Lemma snapPosition_grid (k : Z) : snapPosition (IZR k * TOTAL_SIZE) = IZR k * TOTAL_SIZE.
Proof.
  unfold snapPosition, TOTAL_SIZE, CUBE_SIZE, SPACING.
  replace (IZR k * (1 + 2 / 100) / (102 / 100)) with (IZR k) by field.
  rewrite js_round_IZR. lra.
Qed.

(** ** Euler angles of axis-aligned matrices *)

Lemma atan2_half_axis (y x : Z) :
  onHalfAxis y x = true -> atan2 (IZR y) (IZR x) = IZR (zatan2 y x) * (PI / 2).
Proof.
  unfold onHalfAxis. intros H.
  assert (Hc : (y = 0 /\ (x = 1 \/ x = -1) \/ x = 0 /\ (y = 1 \/ y = -1))%Z).
  { apply orb_true_iff in H. destruct H as [H | H]; apply andb_true_iff in H;
      destruct H as [H1 H2]; apply Z.eqb_eq in H1; apply orb_true_iff in H2;
      destruct H2 as [H2 | H2]; apply Z.eqb_eq in H2; auto. }
  unfold atan2.
  destruct Hc as [[-> [-> | ->]] | [-> [-> | ->]]];
    match goal with |- context [zatan2 ?a ?b] =>
      let v := eval vm_compute in (zatan2 a b) in change (zatan2 a b) with v end.
  - rewrite Rltb_true by lra. replace (0 / 1) with 0 by field. rewrite atan_0. ring.
  - rewrite (Rltb_false 0 (-1)), (Rltb_true (-1) 0), (Rltb_false 0 0) by lra.
    replace (0 / -1) with 0 by field. rewrite atan_0. field.
  - rewrite (Rltb_false 0 0), (Rltb_true 0 1) by lra. ring.
  - rewrite (Rltb_false 0 0), (Rltb_false 0 (-1)), (Rltb_true (-1) 0) by lra. ring.
Qed.

Lemma clamp_unit (x : R) : -1 <= x <= 1 -> clamp x (-1) 1 = x.
Proof.
  intros H. unfold clamp, Rmax, Rmin.
  destruct (Rle_dec 1 x); destruct (Rle_dec _ _); lra.
Qed.

Lemma asin_unit (k : Z) :
  (k = 0 \/ k = 1 \/ k = -1)%Z -> asin (clamp (IZR k) (-1) 1) = IZR k * (PI / 2).
Proof.
  intros [-> | [-> | ->]]; rewrite clamp_unit by lra.
  - rewrite asin_0. ring.
  - rewrite asin_1. ring.
  - replace (-1) with (- (1)) by ring. rewrite asin_opp, asin_1. ring.
Qed.

Lemma eulerFromMatrix_aligned (m : ZM33) :
  aligned m = true -> eulerFromMatrix (toR m) = quarterAngles (zEulerFromMatrix m).
Proof.
  unfold aligned, eulerFromMatrix, zEulerFromMatrix, quarterAngles. simpl.
  destruct (Z.eqb_spec (z13 m) 0) as [H0 | H0].
  - intros H. apply andb_true_iff in H. destruct H as [Hx Hz].
    rewrite H0. rewrite Rabs_R0, Rltb_true by lra.
    rewrite <- !opp_IZR, (atan2_half_axis _ _ Hx), (atan2_half_axis _ _ Hz).
    rewrite asin_unit by auto. reflexivity.
  - intros H. apply andb_true_iff in H. destruct H as [Hy Hx].
    assert (Hc : (z13 m = 1 \/ z13 m = -1)%Z).
    { apply orb_true_iff in Hy. destruct Hy as [Hy | Hy]; apply Z.eqb_eq in Hy; auto. }
    assert (Habs : Rabs (IZR (z13 m)) = 1).
    { destruct Hc as [-> | ->]; [apply Rabs_pos_eq; lra |].
      rewrite Rabs_left by lra. ring. }
    rewrite Habs, Rltb_false by lra.
    rewrite (atan2_half_axis _ _ Hx), asin_unit by tauto.
    f_equal. ring.
Qed.

(** ** The finite group of grid orientations *)

Lemma zm_eqb_eq (a b : ZM33) : zm_eqb a b = true -> a = b.
Proof.
  unfold zm_eqb. intros H.
  repeat (apply andb_true_iff in H; let H2 := fresh "E" in destruct H as [H H2];
          apply Z.eqb_eq in H2).
  apply Z.eqb_eq in H. destruct a, b; simpl in *. congruence.
Qed.

Lemma qcos_mod (k : Z) : qcos (k mod 4) = qcos k.
Proof. unfold qcos. rewrite Z.mod_mod by lia. reflexivity. Qed.

Lemma qsin_mod (k : Z) : qsin (k mod 4) = qsin k.
Proof. unfold qsin. rewrite Z.mod_mod by lia. reflexivity. Qed.

Lemma zEuler_mod (x y z : Z) :
  zEuler (x, y, z) = zEuler ((x mod 4)%Z, (y mod 4)%Z, (z mod 4)%Z).
Proof. unfold zEuler. rewrite !qcos_mod, !qsin_mod. reflexivity. Qed.

Lemma residue_in (k : Z) : In (k mod 4)%Z residues.
Proof.
  unfold residues. destruct (mod4_cases k) as [H | [H | [H | H]]]; rewrite H;
    simpl; auto.
Qed.

Lemma allQuarters_in (x y z : Z) :
  In x residues -> In y residues -> In z residues -> In (x, y, z) allQuarters.
Proof.
  intros Hx Hy Hz. unfold allQuarters.
  apply in_flat_map. exists x. split; [assumption |].
  apply in_flat_map. exists y. split; [assumption |].
  apply in_map_iff. exists z. auto.
Qed.

Lemma zEuler_in (q : Quarters) : In (zEuler q) allEuler.
Proof.
  destruct q as [[x y] z]. rewrite zEuler_mod. unfold allEuler.
  apply in_map. apply allQuarters_in; apply residue_in.
Qed.

Lemma zAxisTurn_mod (axis : Axis) (k : Z) : zAxisTurn axis k = zAxisTurn axis (k mod 4).
Proof.
  unfold zAxisTurn. destruct axis; simpl axisQuarters;
    rewrite zEuler_mod; symmetry; rewrite zEuler_mod;
    rewrite ?Z.mod_mod by lia; reflexivity.
Qed.

Lemma allEuler_roundtrip_check :
  forallb (fun m => aligned m && zm_eqb (zEuler (zEulerFromMatrix m)) m) allEuler = true.
Proof. vm_compute. reflexivity. Qed.

Lemma allEuler_closed_check :
  forallb (fun m =>
    forallb (fun axis =>
      forallb (fun k => existsb (zm_eqb (zmulMM (zAxisTurn axis k) m)) allEuler)
              residues) allAxes) allEuler = true.
Proof. vm_compute. reflexivity. Qed.

Lemma zEuler_aligned (q : Quarters) : aligned (zEuler q) = true.
Proof.
  pose proof (proj1 (forallb_forall _ _) allEuler_roundtrip_check _ (zEuler_in q)) as H.
  apply andb_true_iff in H. tauto.
Qed.

Lemma zEuler_roundtrip (q : Quarters) : zEuler (zEulerFromMatrix (zEuler q)) = zEuler q.
Proof.
  pose proof (proj1 (forallb_forall _ _) allEuler_roundtrip_check _ (zEuler_in q)) as H.
  apply andb_true_iff in H. apply zm_eqb_eq. tauto.
Qed.

Lemma zAxisTurn_closed (axis : Axis) (k : Z) (q : Quarters) :
  exists q', zmulMM (zAxisTurn axis k) (zEuler q) = zEuler q'.
Proof.
  pose proof (proj1 (forallb_forall _ _) allEuler_closed_check _ (zEuler_in q)) as H.
  assert (Hax : In axis allAxes) by (destruct axis; simpl; auto).
  pose proof (proj1 (forallb_forall _ _) H _ Hax) as H1.
  pose proof (proj1 (forallb_forall _ _) H1 _ (residue_in k)) as H2.
  apply existsb_exists in H2. destruct H2 as [m [Hin Heq]].
  unfold allEuler in Hin. apply in_map_iff in Hin. destruct Hin as [q' [<- _]].
  exists q'. rewrite zAxisTurn_mod. apply zm_eqb_eq. exact Heq.
Qed.

(** ** A layer move on grid cubies *)

Lemma gridMesh_nearCell (zc : ZCubie) : nearCell 0 (fst zc) (gridMesh zc).
Proof.
  split; [reflexivity |]. eexists. split; [reflexivity |].
  intros a. simpl. rewrite Rminus_diag, Rabs_R0. lra.
Qed.

Lemma inLayer_gridMesh st axis index zc :
  inLayer st axis index (gridMesh zc) = Z.eqb (cellCoord axis (fst zc)) index.
Proof.
  apply (nearCell_inLayer st 0); [lra | apply gridMesh_nearCell].
Qed.

Lemma pivot_quarter_matrix (axis : Axis) (dir : Z) :
  pivotMatrix (pivotAt (setPivotAxis axis (Fin (PI / 2 * IZR dir)) zeroNV)) =
  Some (toR (zAxisTurn axis dir)).
Proof.
  unfold zAxisTurn. rewrite <- eulerMatrix_quarter.
  destruct axis; unfold pivotMatrix; simpl; do 2 f_equal; f_equal; ring.
Qed.

Lemma mulMV_cellPoint (t : ZM33) (c : Cell) :
  addV (mulMV (toR t) (cellPoint c)) zeroV = cellPoint (zmulMV t c).
Proof.
  destruct c as [[x y] z]. unfold addV, mulMV, cellPoint, toR, zmulMV. simpl.
  repeat rewrite ?plus_IZR, ?mult_IZR. f_equal; ring.
Qed.

Lemma snap_cellPoint (c : Cell) : snapV snapPosition (cellPoint c) = cellPoint c.
Proof. unfold snapV, cellPoint. simpl. rewrite !snapPosition_grid. reflexivity. Qed.

Lemma snap_quarterAngles (q : Quarters) :
  snapV snapRotation (quarterAngles q) = quarterAngles q.
Proof.
  destruct q as [[x y] z]. unfold snapV, quarterAngles. simpl.
  rewrite !snapRotation_quarter. reflexivity.
Qed.

(** The real-valued move and the quarter-turn move agree on grid cubies. *)
Lemma turnMesh_gridMesh st axis index dir zc :
  turnMesh st axis index dir (gridMesh zc) = gridMesh (zturn axis index dir zc).
Proof.
  unfold turnMesh, zturn. rewrite inLayer_gridMesh.
  destruct (Z.eqb (cellCoord axis (fst zc)) index); [| reflexivity].
  destruct zc as [c q].
  unfold gridMesh at 1. unfold attach at 2.
  cbn [pose parent position rotation fst snd].
  rewrite eulerMatrix_quarter, (eulerFromMatrix_aligned _ (zEuler_aligned q)).
  unfold attach. cbn [pose parent position rotation].
  rewrite pivot_quarter_matrix. cbn [pivotPosition pivotAt].
  rewrite eulerMatrix_quarter, toR_mulMM, mulMV_cellPoint.
  destruct (zAxisTurn_closed axis dir (zEulerFromMatrix (zEuler q))) as [q' Hq'].
  rewrite eulerFromMatrix_aligned by (rewrite Hq'; apply zEuler_aligned).
  unfold snapMesh. cbn [pose parent position rotation].
  rewrite snap_cellPoint, snap_quarterAngles. reflexivity.
Qed.

(** * The orbit camera *)

Lemma PI_above_3 : 3 < PI.
Proof. pose proof PI2_3_2. lra. Qed.

Lemma clampPhi_range (phi : R) : 1 / 10 <= clampPhi phi <= PI - 1 / 10.
Proof.
  pose proof PI_above_3. unfold clampPhi, Rmax, Rmin.
  destruct (Rle_dec (PI - 1 / 10) phi); destruct (Rle_dec _ _); lra.
Qed.

Lemma clampPhi_fixed (phi : R) : 1 / 10 <= phi <= PI - 1 / 10 -> clampPhi phi = phi.
Proof.
  intros H. unfold clampPhi, Rmax, Rmin.
  destruct (Rle_dec (PI - 1 / 10) phi); destruct (Rle_dec _ _); lra.
Qed.

Lemma orbit_point (theta phi : R) :
  1 / 10 <= phi <= PI - 1 / 10 ->
  let q := mkV3 (radius * sin phi * sin theta) (radius * cos phi)
                (radius * sin phi * cos theta) in
  normSq q = radius * radius /\ 0 < vx q * vx q + vz q * vz q.
Proof.
  intros Hphi q. subst q. unfold normSq. simpl.
  pose proof (sin2_cos2 phi) as Hp. pose proof (sin2_cos2 theta) as Ht.
  unfold Rsqr in Hp, Ht.
  assert (Hs : 0 < sin phi) by (apply sin_gt_0; lra).
  unfold radius. split.
  - replace (9 * sin phi * sin theta * (9 * sin phi * sin theta) +
             9 * cos phi * (9 * cos phi) +
             9 * sin phi * cos theta * (9 * sin phi * cos theta))
      with (81 * ((sin phi * sin phi) * (sin theta * sin theta + cos theta * cos theta)
                  + cos phi * cos phi)) by ring.
    rewrite Ht. lra.
  - replace (9 * sin phi * sin theta * (9 * sin phi * sin theta) +
             9 * sin phi * cos theta * (9 * sin phi * cos theta))
      with (81 * (sin phi * sin phi) * (sin theta * sin theta + cos theta * cos theta))
      by ring.
    rewrite Ht. nra.
Qed.

Lemma updateCamera_onOrbit (c : Controls) :
  cameraPosition c <> None -> onOrbit (updateCamera c).
Proof.
  intros Hcam. unfold updateCamera.
  destruct (cameraPosition c) as [p |]; [| congruence].
  unfold onOrbit. simpl. split; [apply clampPhi_range |].
  eexists. split; [reflexivity |].
  apply (orbit_point (thetaRef c) (clampPhi (phiRef c))). apply clampPhi_range.
Qed.

(** X1: Over exact reals, while the button is down each mouse move
    leaves the mounted camera at distance 9 from the origin and off the
    vertical axis, with the polar angle inside [0.1, pi - 0.1]. *)
Theorem drag_move_on_orbit :
  forall (e : MouseEvent) (c : Controls),
    isDragging c = true -> cameraPosition c <> None ->
    onOrbit (handleMouseMove e c).
Proof.
  intros e c Hdrag Hcam. unfold handleMouseMove. rewrite Hdrag. simpl negb. cbv iota.
  apply updateCamera_onOrbit. exact Hcam.
Qed.

Lemma drag_move_on_orbit_witness :
  onOrbit (handleMouseMove (12, 7) (handleMouseDown (10, 10) initialControls)).
Proof.
  apply (drag_move_on_orbit (12, 7) (handleMouseDown (10, 10) initialControls)).
  - reflexivity.
  - discriminate.
Defined.

Lemma handleInput_onOrbit (c : Controls) (i : MouseInput) :
  onOrbit c -> onOrbit (handleInput c i).
Proof.
  intros Ho. destruct i as [e | e | |]; simpl; try exact Ho.
  unfold handleMouseMove. destruct (negb (isDragging c)); [exact Ho |].
  apply updateCamera_onOrbit. simpl.
  destruct Ho as [_ [q [Hq _]]]. congruence.
Qed.

(** X2: Over exact reals, once the camera is on its orbit no sequence of
    mouse inputs takes it off. *)
Theorem inputs_keep_orbit :
  forall (inputs : list MouseInput) (c : Controls),
    onOrbit c -> onOrbit (handleInputs c inputs).
Proof.
  unfold handleInputs. induction inputs as [| i rest IH]; intros c Ho; simpl.
  - exact Ho.
  - apply IH. apply handleInput_onOrbit. exact Ho.
Qed.

Lemma inputs_keep_orbit_witness :
  onOrbit (handleInputs
             (handleMouseMove (12, 7) (handleMouseDown (10, 10) initialControls))
             [MouseMove (40, -300); MouseUp; MouseMove (0, 0); MouseDown (3, 3);
              MouseMove (3, 900); MouseLeave]).
Proof.
  apply inputs_keep_orbit.
  unfold handleMouseMove. simpl negb. cbv iota.
  apply updateCamera_onOrbit. discriminate.
Defined.

Lemma updateCamera_refs (c : Controls) :
  thetaRef (updateCamera c) = thetaRef c /\
  previousMousePosition (updateCamera c) = previousMousePosition c /\
  isDragging (updateCamera c) = isDragging c.
Proof. unfold updateCamera. destruct (cameraPosition c); simpl; auto. Qed.

Lemma drag_moves_theta (moves : list MouseEvent) :
  forall (c : Controls),
    isDragging c = true ->
    let c' := handleInputs c (map MouseMove moves) in
    thetaRef c' =
      thetaRef c -
      (fst (last moves (previousMousePosition c)) - fst (previousMousePosition c))
      * rotateSpeed /\
    previousMousePosition c' = last moves (previousMousePosition c) /\
    isDragging c' = true.
Proof.
  unfold handleInputs.
  induction moves as [| e rest IH]; intros c Hdrag; simpl map; simpl fold_left.
  - simpl. split; [ring | auto].
  - assert (Hstep : thetaRef (handleMouseMove e c) =
                    thetaRef c - (fst e - fst (previousMousePosition c)) * rotateSpeed /\
                    previousMousePosition (handleMouseMove e c) = e /\
                    isDragging (handleMouseMove e c) = true).
    { unfold handleMouseMove. rewrite Hdrag. simpl negb. cbv iota.
      match goal with |- context [updateCamera ?x] =>
        destruct (updateCamera_refs x) as [H1 [H2 H3]] end.
      rewrite H1, H2, H3. simpl. auto. }
    destruct Hstep as [Ht [Hp Hd]].
    specialize (IH (handleMouseMove e c) Hd). cbv zeta in IH.
    destruct IH as [IH1 [IH2 IH3]].
    simpl handleInput. rewrite last_cons.
    rewrite IH1, IH2, IH3, Ht, Hp. split; [ring | auto].
Qed.

(** X3: Over exact reals, the horizontal angle after a drag depends only
    on where the drag started and where the pointer is now: pressing the
    button at [e0] and moving through any points leaves theta at its old
    value minus 0.005 times the horizontal distance from [e0] to the
    last point.  (The sum of the steps is exact here; in floating point
    it is rounded at each step.) *)
Theorem drag_theta_path_independent :
  forall (c : Controls) (e0 : MouseEvent) (moves : list MouseEvent),
    let c' := handleInputs c (MouseDown e0 :: map MouseMove moves) in
    thetaRef c' = thetaRef c - (fst (last moves e0) - fst e0) * rotateSpeed /\
    previousMousePosition c' = last moves e0 /\
    isDragging c' = true.
Proof.
  intros c e0 moves.
  change (handleInputs c (MouseDown e0 :: map MouseMove moves))
    with (handleInputs (handleMouseDown e0 c) (map MouseMove moves)).
  apply (drag_moves_theta moves (handleMouseDown e0 c)). reflexivity.
Qed.

Lemma idle_moves_ignored (moves : list MouseEvent) :
  forall c, isDragging c = false -> handleInputs c (map MouseMove moves) = c.
Proof.
  unfold handleInputs. induction moves as [| e rest IH]; intros c Hidle; simpl.
  - reflexivity.
  - assert (Hstep : handleMouseMove e c = c).
    { unfold handleMouseMove. rewrite Hidle. reflexivity. }
    rewrite Hstep. apply IH. exact Hidle.
Qed.

(** X4: After the button is released, or the pointer has left the canvas,
    mouse moves change neither the angles nor the camera, however many
    there are; the camera stays where the drag left it until the next
    press. *)
Theorem moves_after_release_ignored :
  forall (c : Controls) (moves : list MouseEvent),
    handleInputs c (MouseUp :: map MouseMove moves) = handleMouseUp c /\
    handleInputs c (MouseLeave :: map MouseMove moves) = handleMouseUp c /\
    cameraPosition (handleMouseUp c) = cameraPosition c /\
    thetaRef (handleMouseUp c) = thetaRef c /\
    phiRef (handleMouseUp c) = phiRef c.
Proof.
  intros c moves.
  assert (H : handleInputs (handleMouseUp c) (map MouseMove moves) = handleMouseUp c)
    by (apply idle_moves_ignored; reflexivity).
  split; [exact H |]. split; [exact H |]. repeat split.
Qed.

(** X5: A mouse move to the point of the previous move changes nothing: the
    handler is idempotent in its event, dragging or not, camera mounted
    or not. *)
Theorem repeated_move_is_noop :
  forall (e : MouseEvent) (c : Controls),
    handleMouseMove e (handleMouseMove e c) = handleMouseMove e c.
Proof.
  intros e c.
  destruct (isDragging c) eqn:Hdrag.
  - assert (H1 : handleMouseMove e c =
       updateCamera (mkControls (cameraPosition c) true e
         (thetaRef c - (fst e - fst (previousMousePosition c)) * rotateSpeed)
         (phiRef c - (snd e - snd (previousMousePosition c)) * rotateSpeed))).
    { unfold handleMouseMove. rewrite Hdrag. reflexivity. }
    rewrite H1. clear H1.
    set (theta := thetaRef c - (fst e - fst (previousMousePosition c)) * rotateSpeed).
    set (phi := phiRef c - (snd e - snd (previousMousePosition c)) * rotateSpeed).
    unfold updateCamera. cbn [cameraPosition].
    destruct (cameraPosition c) as [p |];
      unfold handleMouseMove, updateCamera;
      cbn [isDragging negb cameraPosition previousMousePosition thetaRef phiRef fst snd].
    + replace (clampPhi phi - (snd e - snd e) * rotateSpeed) with (clampPhi phi) by ring.
      replace (theta - (fst e - fst e) * rotateSpeed) with theta by ring.
      rewrite (clampPhi_fixed (clampPhi phi)) by apply clampPhi_range.
      reflexivity.
    + replace (phi - (snd e - snd e) * rotateSpeed) with phi by ring.
      replace (theta - (fst e - fst e) * rotateSpeed) with theta by ring.
      reflexivity.
  - unfold handleMouseMove. rewrite Hdrag. simpl. rewrite Hdrag. reflexivity.
Qed.

(** X6: The scene setup puts the camera at (5, 4, 6), at squared distance
    77 from the origin, while [updateCamera] works with radius 9: the
    first move of the first drag, whatever its two events are, moves the
    camera away from (5, 4, 6), over exact reals to squared distance 81. *)
Theorem first_drag_changes_distance :
  forall (e0 e : MouseEvent),
    cameraPosition initialControls = Some (mkV3 5 4 6) /\
    normSq (mkV3 5 4 6) = 77 /\
    exists q,
      cameraPosition (handleInputs initialControls [MouseDown e0; MouseMove e]) = Some q /\
      normSq q = 81 /\
      q <> mkV3 5 4 6.
Proof.
  intros e0 e. split; [reflexivity |]. split; [unfold normSq; simpl; ring |].
  assert (Ho : onOrbit (handleInputs initialControls [MouseDown e0; MouseMove e])).
  { unfold handleInputs. simpl fold_left. unfold handleMouseMove. simpl negb. cbv iota.
    apply updateCamera_onOrbit. discriminate. }
  destruct Ho as [_ [q [Hq [Hn _]]]]. exists q. split; [exact Hq |].
  assert (Hn81 : normSq q = 81) by (rewrite Hn; unfold radius; ring).
  split; [exact Hn81 |].
  intros Heq. rewrite Heq in Hn81. unfold normSq in Hn81. simpl in Hn81. lra.
Qed.

(** * The build loop *)

Lemma allCells_range (c : Cell) :
  In c allCells ->
  forall a, (cellCoord a c = -1 \/ cellCoord a c = 0 \/ cellCoord a c = 1)%Z.
Proof.
  intros Hin a.
  assert (Hall : forallb (fun c => (cellCoord a c =? -1) || (cellCoord a c =? 0)
                                   || (cellCoord a c =? 1))%Z allCells = true)
    by (destruct a; reflexivity).
  apply (proj1 (forallb_forall _ _) Hall) in Hin.
  apply orb_true_iff in Hin. destruct Hin as [Hin | Hin];
    [apply orb_true_iff in Hin; destruct Hin as [Hin | Hin] |];
    apply Z.eqb_eq in Hin; auto.
Qed.

Lemma in_allCells (x y z : Z) :
  In x gridIndices -> In y gridIndices -> In z gridIndices -> In (x, y, z) allCells.
Proof.
  intros Hx Hy Hz. unfold allCells.
  apply in_flat_map. exists x. split; [assumption |].
  apply in_flat_map. exists y. split; [assumption |].
  apply in_map_iff. exists z. auto.
Qed.

(** X7: The build loop stores the cubie with logical coordinates (x, y, z) at
    index 9(x+1) + 3(y+1) + (z+1) of the array of 27 cubies, under the
    scene, unrotated, at position (x, y, z) * 1.02. *)
Theorem build_layout :
  List.length buildCubies = 27%nat /\
  forall (c : Cell),
    In c allCells ->
    nth_error buildCubies (cubieIndex c) =
      Some (mkMesh (Some (mkPose (cellPoint c) zeroV)) InScene).
Proof.
  split; [reflexivity |].
  intros c Hin. unfold allCells, gridIndices in Hin. simpl in Hin.
  repeat (destruct Hin as [<- | Hin]; [reflexivity |]). contradiction.
Qed.

Lemma build_layout_witness :
  nth_error buildCubies 23 =
    Some (mkMesh (Some (mkPose (cellPoint (1, 0, 1)%Z) zeroV)) InScene).
Proof.
  apply (proj2 build_layout (1, 0, 1)%Z).
  apply in_allCells; simpl; auto.
Defined.

(** X8: Every cubie of the build shows a face colour exactly on its
    outward sides: material slot i (Right, Left, Up, Down, Front, Back)
    holds face material i when the cubie has no neighbour on that side
    and the black material when it has one.  Hence a cubie has as many
    coloured materials as non-zero coordinates (3 on the 8 corners, 2 on
    the 12 edges, 1 on the 6 centres, none on the core), never the
    colours of two opposite faces together, and each of the six colours
    is on exactly 9 cubies. *)
Theorem build_stickers :
  map fst buildMaterials = allCells /\
  (forall c ms, In (c, ms) buildMaterials ->
     List.length ms = 6%nat /\
     (forall i, (i < 6)%nat ->
        nth i ms BlackMat = if hasNeighbour c i then BlackMat else FaceMaterial i) /\
     coloredCount ms = outerCoords c /\
     forall i, (i < 3)%nat ->
       existsb (usesFace (2 * i)) ms && existsb (usesFace (2 * i + 1)) ms = false) /\
  (forall i, (i < 6)%nat ->
     List.length (filter (fun cm => existsb (usesFace i) (snd cm)) buildMaterials) = 9%nat) /\
  map (fun k => List.length (filter (fun cm => Nat.eqb (coloredCount (snd cm)) k)
                                    buildMaterials))
      [0; 1; 2; 3]%nat = [1; 6; 12; 8]%nat.
Proof.
  split; [reflexivity |]. split; [| split].
  - intros c ms Hin. unfold buildMaterials, gridIndices in Hin. simpl in Hin.
    repeat (destruct Hin as [Heq | Hin];
            [inversion Heq; subst; clear Heq;
             split; [reflexivity |]; split;
             [intros i Hi; destruct i as [| [| [| [| [| [| i]]]]]];
                [reflexivity .. | lia]
             | split;
               [reflexivity
               | intros i Hi; destruct i as [| [| [| i]]]; [reflexivity .. | lia]]] |]).
    contradiction.
  - intros i Hi.
    destruct i as [| [| [| [| [| [| i]]]]]]; [reflexivity .. | lia].
  - reflexivity.
Qed.

Lemma build_stickers_witness :
  nth 0 (cubieMaterials 1 (-1) 0) BlackMat = FaceMaterial 0 /\
  nth 1 (cubieMaterials 1 (-1) 0) BlackMat = BlackMat /\
  coloredCount (cubieMaterials 1 (-1) 0) = outerCoords (1, -1, 0)%Z /\
  List.length (filter (fun cm => existsb (usesFace 4) (snd cm)) buildMaterials) = 9%nat.
Proof.
  assert (Hin : In ((1, -1, 0)%Z, cubieMaterials 1 (-1) 0) buildMaterials)
    by (unfold buildMaterials, gridIndices; simpl; tauto).
  destruct (proj1 (proj2 build_stickers) _ _ Hin) as [_ [Hslot [Hcount _]]].
  split; [exact (Hslot 0%nat ltac:(lia)) |].
  split; [exact (Hslot 1%nat ltac:(lia)) |].
  split; [exact Hcount |].
  apply (proj1 (proj2 (proj2 build_stickers)) 4%nat). lia.
Defined.

(** * More on the rotation engine *)

(** A promise settled with [true] belongs to an accepted call. *)
Lemma move_true_inv cb st face invert duration start now times st' :
  move cb st face invert duration start now times = (st', Resolved (JBool true)) ->
  isAnimating st = false /\
  exists axis index dir,
    faceMove face invert = Some (axis, index, dir) /\
    st' = mkState (map (turnMesh st axis index dir) (cubies st)) zeroNV zeroV false
                  (if cb then S (moveCompleteCalls st) else moveCompleteCalls st).
Proof.
  intros Hmove.
  destruct (faceMove face invert) as [[[axis index] dir] |] eqn:Hf.
  - destruct (isAnimating st) eqn:Hb.
    + unfold move, rotateFace in Hmove.
      rewrite Hf, rotateLayer_busy, runFrames_resolved in Hmove by assumption.
      discriminate.
    + split; [reflexivity |]. exists axis, index, dir. split; [reflexivity |].
      exact (proj2 (move_result _ _ _ _ _ _ _ _ _ _ _ _ _ Hb Hf Hmove)).
  - unfold move, rotateFace in Hmove. rewrite Hf, runFrames_resolved in Hmove.
    discriminate.
Qed.

Lemma turnMesh_unselected st axis index dir i :
  ~ In i (activeCubies st axis index) ->
  nth_error (map (turnMesh st axis index dir) (cubies st)) i = nth_error (cubies st) i.
Proof.
  intros Hout. rewrite nth_error_map.
  destruct (nth_error (cubies st) i) as [m |] eqn:Hn; [| reflexivity].
  simpl. f_equal. unfold turnMesh.
  destruct (inLayer st axis index m) eqn:Hl; [| reflexivity].
  exfalso. apply Hout. unfold activeCubies. apply filterIdx_In.
  exists m. rewrite Nat.sub_0_r. repeat split; auto. lia.
Qed.

(** X9: The state in which a move settles does not depend on its duration or
    on any clock reading: two runs of the same call from the same state
    that both settle with [true] end in the same state.  That state has
    as many cubies as before, and every cubie the filter did not select
    is exactly as it was. *)
Theorem settled_state_ignores_timing :
  forall (cb : bool) (st : State) (face : string) (invert : bool)
         (d1 d2 : num) (s1 n1 s2 n2 : Z) (ts1 ts2 : list Z) (st1 st2 : State),
    move cb st face invert d1 s1 n1 ts1 = (st1, Resolved (JBool true)) ->
    move cb st face invert d2 s2 n2 ts2 = (st2, Resolved (JBool true)) ->
    st1 = st2 /\
    List.length (cubies st1) = List.length (cubies st) /\
    forall axis index dir i,
      faceMove face invert = Some (axis, index, dir) ->
      ~ In i (activeCubies st axis index) ->
      nth_error (cubies st1) i = nth_error (cubies st) i.
Proof.
  intros cb st face invert d1 d2 s1 n1 s2 n2 ts1 ts2 st1 st2 H1 H2.
  apply move_true_inv in H1. apply move_true_inv in H2.
  destruct H1 as [_ [axis [index [dir [Hf ->]]]]].
  destruct H2 as [_ [axis' [index' [dir' [Hf' ->]]]]].
  rewrite Hf in Hf'. inversion Hf'; subst axis' index' dir'.
  split; [reflexivity |]. simpl cubies. split; [apply length_map |].
  intros ax ix dr i Hf2 Hout. rewrite Hf in Hf2. inversion Hf2; subst.
  apply turnMesh_unselected. exact Hout.
Qed.

Lemma settled_state_ignores_timing_witness :
  fst (move false initialState "U" false (Fin 300) 0 0 [400%Z]) =
  fst (move false initialState "U" false (Fin 50) 10 12 [30%Z; 80%Z]).
Proof.
  destruct (move_completes false initialState "U" false 300 0 0 [] 400 [])
    as [st1 H1];
    [reflexivity | intros H; vm_compute in H; discriminate | lra | simpl; lra |].
  destruct (move_completes false initialState "U" false 50 10 12 [30%Z] 80 [])
    as [st2 H2];
    [reflexivity | intros H; vm_compute in H; discriminate | lra | simpl; lra |].
  simpl app in H1, H2. rewrite H1, H2.
  exact (proj1 (settled_state_ignores_timing false initialState "U" false
                  (Fin 300) (Fin 50) 0 0 10 12 [400%Z] [30%Z; 80%Z] st1 st2 H1 H2)).
Defined.

Lemma progress_pending_iff a t d :
  animDuration a = Fin d -> 0 < d ->
  (num_ltb (progressAt a t) (Fin 1) = true <-> IZR (t - startTime a) < d).
Proof.
  intros Hd Hpos. rewrite (progressAt_finite a t d Hd) by lra. simpl.
  rewrite Rltb_spec.
  assert (Hdiv : IZR (t - startTime a) / d < 1 <-> IZR (t - startTime a) < d).
  { split; intros H.
    - apply (Rmult_lt_compat_r d) in H; [| assumption].
      unfold Rdiv in H. rewrite Rmult_assoc, Rinv_l in H by lra. lra.
    - apply (Rmult_lt_reg_r d); [assumption |].
      unfold Rdiv. rewrite Rmult_assoc, Rinv_l by lra. lra. }
  unfold Rmin. destruct (Rle_dec _ _); split; intros H; try lra;
    try (apply Hdiv; lra); try (apply Hdiv in H; lra).
Qed.

(** X10: An accepted move with a positive duration settles within the frames
    given exactly when one of them is sampled [duration] milliseconds or
    more after the start; otherwise its promise is still pending and the
    busy flag is set. *)
Theorem move_settles_iff_late_frame :
  forall (cb : bool) (st : State) (face : string) (invert : bool) (d : R)
         (start now : Z) (times : list Z),
    isAnimating st = false -> faceMove face invert <> None -> 0 < d ->
    let r := move cb st face invert (Fin d) start now times in
    (snd r = Resolved (JBool true) <->
     exists t, In t (now :: times) /\ d <= IZR (t - start)) /\
    (snd r <> Resolved (JBool true) ->
     isAnimating (fst r) = true /\ exists a, snd r = Pending a).
Proof.
  intros cb st face invert d start now times Hidle Hface Hpos r.
  destruct (faceMove face invert) as [[[axis index] dir] |] eqn:Hf; [| congruence].
  set (a := mkAnim axis (PI / 2 * IZR dir) start (Fin d) (activeCubies st axis index)).
  set (s := mkState (forEachActive
                       (attach (mkState (cubies st) zeroNV zeroV true
                                  (moveCompleteCalls st)) InPivot)
                       (activeCubies st axis index) (cubies st))
                    zeroNV zeroV true (moveCompleteCalls st)).
  assert (Hr : r = runFrames cb (now :: times) (s, Pending a)).
  { subst r. rewrite (move_unfold_idle _ _ _ _ _ _ _ _ _ _ _ Hf Hidle). reflexivity. }
  assert (Hlate : (exists t, In t (now :: times) /\ d <= IZR (t - start)) ->
                  snd r = Resolved (JBool true)).
  { intros [t [Hin Ht]]. apply in_split in Hin. destruct Hin as [pre [post Hsplit]].
    destruct (runFrames_reaches cb d t post pre s a eq_refl Hpos Ht) as [st' E].
    rewrite Hr, Hsplit, E. reflexivity. }
  assert (Hearly : (forall t, In t (now :: times) -> IZR (t - start) < d) ->
                   isAnimating (fst r) = true /\ snd r = Pending a).
  { intros Hall.
    assert (Hp : snd r = Pending a).
    { rewrite Hr. apply (runFrames_pending cb times now s a). intros t Ht.
      apply (progress_pending_iff a t d eq_refl Hpos). apply Hall. exact Ht. }
    split; [| exact Hp].
    pose proof (runFrames_trace cb times now s a) as Htr.
    cbv zeta in Htr.
    change (runFrames cb times (animateRotation cb a now s)) with
      (runFrames cb (now :: times) (s, Pending a)) in Htr.
    rewrite <- Hr in Htr. rewrite Hp in Htr.
    destruct Htr as [_ [_ Hst]]. rewrite Hst. reflexivity. }
  assert (Hdec : (exists t, In t (now :: times) /\ d <= IZR (t - start)) \/
                 (forall t, In t (now :: times) -> IZR (t - start) < d)).
  { clear. induction (now :: times) as [| t l IH].
    - right. intros t [].
    - destruct IH as [[t' [Hin Ht']] | Hall].
      + left. exists t'. split; [right; exact Hin | exact Ht'].
      + destruct (Rle_dec d (IZR (t - start))) as [Hle | Hgt].
        * left. exists t. split; [left; reflexivity | exact Hle].
        * right. intros t' [<- | Hin]; [lra | apply Hall; exact Hin]. }
  split.
  - split; [| exact Hlate].
    intros Hres. destruct Hdec as [Hex | Hall]; [exact Hex |].
    destruct (Hearly Hall) as [_ Hp]. rewrite Hp in Hres. discriminate.
  - intros Hnot. destruct Hdec as [Hex | Hall].
    + exfalso. apply Hnot. apply Hlate. exact Hex.
    + destruct (Hearly Hall) as [Hb Hp]. split; [exact Hb | eauto].
Qed.

Lemma move_settles_iff_late_frame_witness :
  snd (move true initialState "F" true (Fin 300) 0 0 [100%Z; 320%Z]) =
  Resolved (JBool true).
Proof.
  apply (proj1 (move_settles_iff_late_frame true initialState "F" true 300 0 0
                  [100%Z; 320%Z] eq_refl
                  ltac:(intros H; vm_compute in H; discriminate) ltac:(lra))).
  exists 320%Z. split; [simpl; auto | simpl; lra].
Defined.

(** X11: A duration the animation can never reach.  With a negative
    duration, as long as no clock reading lies before the start, and
    with an infinite duration in any case, an accepted move never
    settles: after any number of frames its promise is pending and the
    busy flag is set, so every further [rotateFace] call is refused. *)
Theorem unreachable_duration_never_settles :
  forall (cb : bool) (st : State) (face : string) (invert : bool)
         (duration : num) (start now : Z) (times : list Z),
    isAnimating st = false -> faceMove face invert <> None ->
    (duration = PInf \/ duration = NInf \/
     exists d, duration = Fin d /\ d < 0 /\
               forall t, In t (now :: times) -> (start <= t)%Z) ->
    let r := move cb st face invert duration start now times in
    (exists a, snd r = Pending a) /\
    isAnimating (fst r) = true /\
    forall face' invert' duration' start' now',
      fst (rotateFace cb (fst r) face' invert' duration' start' now') = fst r.
Proof.
  intros cb st face invert duration start now times Hidle Hface Hdur r.
  destruct (faceMove face invert) as [[[axis index] dir] |] eqn:Hf; [| congruence].
  set (a := mkAnim axis (PI / 2 * IZR dir) start duration (activeCubies st axis index)).
  set (s := mkState (forEachActive
                       (attach (mkState (cubies st) zeroNV zeroV true
                                  (moveCompleteCalls st)) InPivot)
                       (activeCubies st axis index) (cubies st))
                    zeroNV zeroV true (moveCompleteCalls st)).
  assert (Hr : r = runFrames cb times (animateRotation cb a now s)).
  { subst r. rewrite (move_unfold_idle _ _ _ _ _ _ _ _ _ _ _ Hf Hidle). reflexivity. }
  assert (Hprog : forall t, In t (now :: times) ->
                            num_ltb (progressAt a t) (Fin 1) = true).
  { intros t Ht. unfold progressAt, js_div. simpl animDuration. simpl startTime.
    destruct Hdur as [-> | [-> | [d [-> [Hneg Hclock]]]]].
    - simpl. apply Rltb_true. unfold Rmin. destruct (Rle_dec _ _); lra.
    - simpl. apply Rltb_true. unfold Rmin. destruct (Rle_dec _ _); lra.
    - rewrite Reqb_false by lra. simpl. apply Rltb_true.
      assert (He : 0 <= IZR (t - start)) by (apply IZR_le; specialize (Hclock t Ht); lia).
      assert (Hq : IZR (t - start) / d <= 0).
      { unfold Rdiv. assert (/ d < 0) by (apply Rinv_lt_0_compat; exact Hneg). nra. }
      unfold Rmin. destruct (Rle_dec _ _); lra. }
  assert (Hp : snd r = Pending a) by (rewrite Hr; apply runFrames_pending; exact Hprog).
  assert (Hb : isAnimating (fst r) = true).
  { pose proof (runFrames_trace cb times now s a) as Htr. cbv zeta in Htr.
    rewrite <- Hr, Hp in Htr. destruct Htr as [_ [_ Hst]]. rewrite Hst. reflexivity. }
  split; [eauto |]. split; [exact Hb |].
  intros face' invert' duration' start' now'. unfold rotateFace.
  destruct (faceMove face' invert') as [[[ax ix] dr] |]; [| reflexivity].
  rewrite rotateLayer_busy by exact Hb. reflexivity.
Qed.

Lemma unreachable_duration_never_settles_witness :
  isAnimating (fst (move false initialState "R" false (Fin (-300)) 0 0
                      [16%Z; 5000%Z; 900000%Z])) = true.
Proof.
  apply (unreachable_duration_never_settles false initialState "R" false (Fin (-300))
           0 0 [16%Z; 5000%Z; 900000%Z] eq_refl
           ltac:(intros H; vm_compute in H; discriminate)).
  right; right. exists (-300). split; [reflexivity |]. split; [lra |].
  intros t Ht. simpl in Ht.
  destruct Ht as [<- | [<- | [<- | [<- | []]]]]; lia.
Defined.

(** X12: A duration of zero, with a clock that has not gone back between the
    two readings of the call, or a duration that is not a number, lets
    the move settle inside the [rotateFace] call itself: the promise
    comes back settled with [true] and the busy flag is already clear.
    (Zero is the real number 0; the reals have no negative zero.) *)
Theorem degenerate_duration_settles_at_once :
  forall (cb : bool) (st : State) (face : string) (invert : bool)
         (duration : num) (start now : Z),
    isAnimating st = false -> faceMove face invert <> None ->
    (duration = NaN \/ duration = Fin 0 /\ (start <= now)%Z) ->
    snd (rotateFace cb st face invert duration start now) = Resolved (JBool true) /\
    isAnimating (fst (rotateFace cb st face invert duration start now)) = false.
Proof.
  intros cb st face invert duration start now Hidle Hface Hdur.
  destruct (faceMove face invert) as [[[axis index] dir] |] eqn:Hf; [| congruence].
  unfold rotateFace. rewrite Hf, rotateLayer_idle by assumption. cbv zeta.
  match goal with |- context [animateRotation cb ?a now ?s] =>
    destruct (animateRotation_cases cb a now s) as [[Hlt Heq] | [Hlt Heq]];
    rewrite Heq
  end.
  - exfalso. unfold progressAt, js_div in Hlt. simpl in Hlt.
    destruct Hdur as [-> | [-> Hclock]].
    + discriminate.
    + rewrite Reqb_true in Hlt by reflexivity.
      assert (He : 0 <= IZR (now - start)) by (apply IZR_le; lia).
      destruct (Rltb 0 (IZR (now - start))) eqn:Hpos.
      * simpl in Hlt. apply Rltb_spec in Hlt. lra.
      * rewrite Rltb_false in Hlt by lra. discriminate.
  - split; reflexivity.
Qed.

Lemma degenerate_duration_settles_at_once_witness :
  snd (rotateFace true initialState "D" false (Fin 0) 100 100) = Resolved (JBool true).
Proof.
  apply (degenerate_duration_settles_at_once true initialState "D" false (Fin 0) 100 100
           eq_refl ltac:(intros H; vm_compute in H; discriminate)).
  right. split; [reflexivity | lia].
Defined.

Lemma cube_zero (u : R) : u ^ 3 = 0 -> u = 0.
Proof.
  intros H. destruct (Req_dec u 0) as [E | E]; [exact E |].
  exfalso. apply (pow_nonzero u 3 E). exact H.
Qed.

(** X13: The easing never overshoots and never turns back: over exact
    reals, for a positive duration and two frames sampled in clock order
    after the start, the eased values are finite, lie in [0, 1] and are
    ordered like the frames, the pivot angle is the target angle times
    the eased value, and the eased value is 1 at every frame sampled
    [duration] milliseconds or more after the start. *)
Theorem easing_monotone_bounded :
  forall (a : Anim) (d : R) (t1 t2 : Z),
    animDuration a = Fin d -> 0 < d ->
    (startTime a <= t1)%Z -> (t1 <= t2)%Z ->
    exists e1 e2,
      easedAt a t1 = Fin e1 /\ easedAt a t2 = Fin e2 /\
      0 <= e1 /\ e1 <= e2 /\ e2 <= 1 /\
      currentAngleAt a t1 = Fin (targetRotation a * e1) /\
      currentAngleAt a t2 = Fin (targetRotation a * e2) /\
      (d <= IZR (t2 - startTime a) -> e2 = 1).
Proof.
  intros a d t1 t2 Hd Hpos Hs H12.
  set (q1 := IZR (t1 - startTime a) / d). set (q2 := IZR (t2 - startTime a) / d).
  assert (Hinv : 0 < / d) by (apply Rinv_0_lt_compat; exact Hpos).
  assert (Hq1 : 0 <= q1).
  { unfold q1, Rdiv. apply Rmult_le_pos; [apply IZR_le; lia | lra]. }
  assert (Hq12 : q1 <= q2).
  { unfold q1, q2, Rdiv. apply Rmult_le_compat_r; [lra | apply IZR_le; lia]. }
  assert (Hq2d : d <= IZR (t2 - startTime a) -> 1 <= q2).
  { unfold q2, Rdiv. intros H.
    apply (Rmult_le_reg_r d); [assumption |].
    rewrite Rmult_assoc, Rinv_l by lra. lra. }
  set (p1 := Rmin q1 1). set (p2 := Rmin q2 1).
  assert (Hp : 0 <= p1 /\ p1 <= p2 /\ p2 <= 1 /\ (1 <= q2 -> p2 = 1)).
  { unfold p1, p2, Rmin. destruct (Rle_dec q1 1); destruct (Rle_dec q2 1);
      repeat split; try lra; intros; lra. }
  destruct Hp as [Hp1 [Hp12 [Hp2 Hp2q]]].
  assert (He1 : easedAt a t1 = Fin (1 - (1 - p1) ^ 3)).
  { unfold easedAt. rewrite (progressAt_finite a t1 d Hd) by lra. reflexivity. }
  assert (He2 : easedAt a t2 = Fin (1 - (1 - p2) ^ 3)).
  { unfold easedAt. rewrite (progressAt_finite a t2 d Hd) by lra. reflexivity. }
  assert (Hc1 : (1 - p1) ^ 3 <= 1).
  { rewrite <- (pow1 3). apply pow_incr. lra. }
  assert (Hc12 : (1 - p2) ^ 3 <= (1 - p1) ^ 3) by (apply pow_incr; lra).
  assert (Hc2 : 0 <= (1 - p2) ^ 3) by (apply pow_le; lra).
  exists (1 - (1 - p1) ^ 3), (1 - (1 - p2) ^ 3).
  split; [exact He1 |]. split; [exact He2 |].
  split; [lra |]. split; [lra |]. split; [lra |].
  split; [unfold currentAngleAt; rewrite He1; reflexivity |].
  split; [unfold currentAngleAt; rewrite He2; reflexivity |].
  intros Hlate. rewrite (Hp2q (Hq2d Hlate)).
  replace (1 - 1) with 0 by ring. rewrite pow_i by lia. ring.
Qed.

Lemma easing_monotone_bounded_witness :
  exists e1 e2,
    easedAt sampleAnim 1100 = Fin e1 /\ easedAt sampleAnim 1300 = Fin e2 /\
    0 <= e1 /\ e1 <= e2 /\ e2 = 1.
Proof.
  destruct (easing_monotone_bounded sampleAnim 300 1100 1300 eq_refl
              ltac:(lra) ltac:(simpl; lia) ltac:(lia))
    as [e1 [e2 [H1 [H2 [H3 [H4 [_ [_ [_ H8]]]]]]]]].
  exists e1, e2. repeat split; try assumption.
  apply H8. simpl. lra.
Defined.




(** * Moves on the grid *)

Lemma cell_eqb_eq (a b : Cell) : cell_eqb a b = true -> a = b.
Proof.
  destruct a as [[x y] z], b as [[x' y'] z']. simpl. intros H.
  apply andb_true_iff in H. destruct H as [H Hz].
  apply andb_true_iff in H. destruct H as [Hx Hy].
  apply Z.eqb_eq in Hx, Hy, Hz. congruence.
Qed.

Lemma remove_cell_perm (c : Cell) :
  forall l r, remove_cell c l = Some r -> Permutation l (c :: r).
Proof.
  induction l as [| x l IH]; intros r H; simpl in H; [discriminate |].
  destruct (cell_eqb c x) eqn:E.
  - apply cell_eqb_eq in E. inversion H; subst. apply Permutation_refl.
  - destruct (remove_cell c l) as [r' |]; [| discriminate].
    inversion H; subst.
    apply Permutation_trans with (x :: c :: r').
    + apply perm_skip. apply IH. reflexivity.
    + apply perm_swap.
Qed.

Lemma perm_check_sound :
  forall l l', perm_check l l' = true -> Permutation l l'.
Proof.
  induction l as [| c l IH]; intros l' H; simpl in H.
  - destruct l'; [apply perm_nil | discriminate].
  - destruct (remove_cell c l') as [r |] eqn:E; [| discriminate].
    apply Permutation_trans with (c :: r).
    + apply perm_skip. apply IH. exact H.
    + apply Permutation_sym. apply remove_cell_perm. exact E.
Qed.

Lemma faceMove_in_allTurns face invert axis index dir :
  faceMove face invert = Some (axis, index, dir) -> In (axis, index, dir) allTurns.
Proof.
  unfold faceMove.
  repeat match goal with
         | |- context [String.eqb ?a ?b] => destruct (String.eqb a b)
         end;
    destruct invert; intros H; inversion H; subst; simpl; tauto.
Qed.

Lemma allTurns_cells_check :
  forallb (fun t => match t with
                    | (axis, index, dir) =>
                        perm_check (map (cellTurn axis index dir) allCells) allCells
                    end) allTurns = true.
Proof. vm_compute. reflexivity. Qed.

Lemma cellTurn_permutes axis index dir cells :
  In (axis, index, dir) allTurns ->
  Permutation cells allCells ->
  Permutation (map (cellTurn axis index dir) cells) allCells.
Proof.
  intros Hin Hperm.
  apply Permutation_trans with (map (cellTurn axis index dir) allCells).
  - apply Permutation_map. exact Hperm.
  - apply perm_check_sound.
    exact (proj1 (forallb_forall _ _) allTurns_cells_check _ Hin).
Qed.

Lemma zturn_fst axis index dir zc :
  fst (zturn axis index dir zc) = cellTurn axis index dir (fst zc).
Proof.
  unfold zturn, cellTurn. destruct (Z.eqb _ _); reflexivity.
Qed.

Lemma gridMesh_unrotated (c : Cell) :
  gridMesh (c, (0, 0, 0)%Z) = mkMesh (Some (mkPose (cellPoint c) zeroV)) InScene.
Proof.
  unfold gridMesh, quarterAngles, zeroV. simpl. do 3 f_equal. f_equal; ring.
Qed.

Lemma buildCubies_cells :
  buildCubies = map (fun c => gridMesh (c, (0, 0, 0)%Z)) allCells.
Proof.
  transitivity (map (fun c => mkMesh (Some (mkPose (cellPoint c) zeroV)) InScene) allCells).
  - reflexivity.
  - apply map_ext. intros c. symmetry. apply gridMesh_unrotated.
Qed.

Lemma onGrid_initial : onGrid initialState.
Proof.
  exists (map (fun c => (c, (0, 0, 0)%Z)) allCells). split.
  - simpl cubies. rewrite buildCubies_cells, map_map. reflexivity.
  - rewrite map_map. cbn [fst]. rewrite map_id. apply Permutation_refl.
Qed.

Lemma onGrid_step cb st face invert duration start now times st' :
  onGrid st ->
  move cb st face invert duration start now times = (st', Resolved (JBool true)) ->
  exists zs axis index dir,
    cubies st = map gridMesh zs /\ Permutation (map fst zs) allCells /\
    faceMove face invert = Some (axis, index, dir) /\
    In (axis, index, dir) allTurns /\
    st' = mkState (map gridMesh (map (zturn axis index dir) zs)) zeroNV zeroV false
                  (if cb then S (moveCompleteCalls st) else moveCompleteCalls st).
Proof.
  intros [zs [Hc Hp]] Hmove.
  apply move_true_inv in Hmove. destruct Hmove as [_ [axis [index [dir [Hf ->]]]]].
  exists zs, axis, index, dir.
  split; [exact Hc |]. split; [exact Hp |]. split; [exact Hf |].
  split; [exact (faceMove_in_allTurns _ _ _ _ _ Hf) |].
  f_equal. rewrite Hc, !map_map. apply map_ext. intros zc.
  apply turnMesh_gridMesh.
Qed.

Lemma grid_step cb st face invert duration start now times st' zs :
  cubies st = map gridMesh zs ->
  move cb st face invert duration start now times = (st', Resolved (JBool true)) ->
  exists axis index dir,
    faceMove face invert = Some (axis, index, dir) /\
    In (axis, index, dir) allTurns /\
    st' = mkState (map gridMesh (map (zturn axis index dir) zs)) zeroNV zeroV false
                  (if cb then S (moveCompleteCalls st) else moveCompleteCalls st).
Proof.
  intros Hc Hmove.
  apply move_true_inv in Hmove. destruct Hmove as [_ [axis [index [dir [Hf ->]]]]].
  exists axis, index, dir. split; [exact Hf |].
  split; [exact (faceMove_in_allTurns _ _ _ _ _ Hf) |].
  f_equal. rewrite Hc, !map_map. apply map_ext. intros zc.
  apply turnMesh_gridMesh.
Qed.

Lemma allTurns_cases axis index dir :
  In (axis, index, dir) allTurns ->
  (index = 1 \/ index = -1)%Z /\ (dir = 1 \/ dir = -1)%Z.
Proof.
  unfold allTurns, allAxes. simpl. intros H.
  repeat (destruct H as [H | H]; [inversion H; subst; auto |]). contradiction.
Qed.

(** A quarter turn of a layer keeps its cells in the layer. *)
Lemma zAxisTurn_coord axis dir c :
  (dir = 1 \/ dir = -1)%Z -> cellCoord axis (zmulMV (zAxisTurn axis dir) c) = cellCoord axis c.
Proof.
  intros [-> | ->]; destruct axis; destruct c as [[x y] z];
    match goal with |- context [zAxisTurn ?a ?d] =>
      let v := eval vm_compute in (zAxisTurn a d) in change (zAxisTurn a d) with v end;
    unfold zmulMV, cellCoord; cbn [z11 z12 z13 z21 z22 z23 z31 z32 z33]; ring.
Qed.

Lemma zAxisTurn_four axis dir c :
  (dir = 1 \/ dir = -1)%Z ->
  zmulMV (zAxisTurn axis dir) (zmulMV (zAxisTurn axis dir)
    (zmulMV (zAxisTurn axis dir) (zmulMV (zAxisTurn axis dir) c))) = c.
Proof.
  intros [-> | ->]; destruct axis; destruct c as [[x y] z];
    match goal with |- context [zAxisTurn ?a ?d] =>
      let v := eval vm_compute in (zAxisTurn a d) in change (zAxisTurn a d) with v end;
    unfold zmulMV; cbn [z11 z12 z13 z21 z22 z23 z31 z32 z33];
    (apply injective_projections; [apply injective_projections |]);
    cbn [fst snd]; ring.
Qed.

Lemma zAxisTurn_back axis dir c :
  (dir = 1 \/ dir = -1)%Z ->
  zmulMV (zAxisTurn axis (- dir)) (zmulMV (zAxisTurn axis dir) c) = c.
Proof.
  intros [-> | ->]; destruct axis; destruct c as [[x y] z];
    repeat match goal with |- context [zAxisTurn ?a ?d] =>
      let v := eval vm_compute in (zAxisTurn a d) in change (zAxisTurn a d) with v end;
    unfold zmulMV; cbn [z11 z12 z13 z21 z22 z23 z31 z32 z33];
    (apply injective_projections; [apply injective_projections |]);
    cbn [fst snd]; ring.
Qed.

Lemma orientation_rounds_check :
  forallb (fun m =>
    forallb (fun axis =>
      forallb (fun dir =>
        let t := zAxisTurn axis dir in
        zm_eqb (zmulMM t (zmulMM t (zmulMM t (zmulMM t m)))) m &&
        zm_eqb (zmulMM (zAxisTurn axis (- dir)) (zmulMM t m)) m)
        [1; -1]%Z) allAxes) allEuler = true.
Proof. vm_compute. reflexivity. Qed.

Lemma orientation_rounds axis dir q :
  (dir = 1 \/ dir = -1)%Z ->
  let t := zAxisTurn axis dir in
  zmulMM t (zmulMM t (zmulMM t (zmulMM t (zEuler q)))) = zEuler q /\
  zmulMM (zAxisTurn axis (- dir)) (zmulMM t (zEuler q)) = zEuler q.
Proof.
  intros Hdir t.
  pose proof (proj1 (forallb_forall _ _) orientation_rounds_check _ (zEuler_in q)) as H.
  assert (Hax : In axis allAxes) by (destruct axis; simpl; auto).
  pose proof (proj1 (forallb_forall _ _) H _ Hax) as H1.
  assert (Hd : In dir [1; -1]%Z) by (destruct Hdir as [-> | ->]; simpl; auto).
  pose proof (proj1 (forallb_forall _ _) H1 _ Hd) as H2.
  cbv zeta in H2. apply andb_true_iff in H2. destruct H2 as [Ha Hb].
  split; apply zm_eqb_eq; assumption.
Qed.

(** The orientation of a selected grid cubie after the move. *)
Lemma zturn_selected axis index dir c q :
  (cellCoord axis c =? index)%Z = true ->
  exists q',
    zturn axis index dir (c, q) = (zmulMV (zAxisTurn axis dir) c, q') /\
    zEuler q' = zmulMM (zAxisTurn axis dir) (zEuler q).
Proof.
  intros Hsel. unfold zturn. cbn [fst snd]. rewrite Hsel.
  eexists. split; [reflexivity |].
  rewrite zEuler_roundtrip.
  destruct (zAxisTurn_closed axis dir q) as [q' Hq'].
  rewrite Hq'. apply zEuler_roundtrip.
Qed.

Lemma zturn_unselected axis index dir zc :
  (cellCoord axis (fst zc) =? index)%Z = false -> zturn axis index dir zc = zc.
Proof. intros H. unfold zturn. rewrite H. reflexivity. Qed.

Lemma zturn_coord axis index dir zc :
  (dir = 1 \/ dir = -1)%Z ->
  cellCoord axis (fst (zturn axis index dir zc)) = cellCoord axis (fst zc).
Proof.
  intros Hdir. unfold zturn. destruct (Z.eqb _ _); [| reflexivity].
  cbn [fst]. apply zAxisTurn_coord. exact Hdir.
Qed.

Lemma onGrid_nearGrid st : onGrid st -> nearGrid 0 st.
Proof.
  intros [zs [Hc Hp]]. exists (map fst zs). split; [exact Hp |].
  rewrite Hc. clear. induction zs as [| zc zs IH]; simpl.
  - apply Forall2_nil.
  - apply Forall2_cons; [apply gridMesh_nearCell | exact IH].
Qed.

Lemma onGrid_preserved cb st face invert duration start now times st' :
  onGrid st ->
  move cb st face invert duration start now times = (st', Resolved (JBool true)) ->
  onGrid st'.
Proof.
  intros Hg Hmove.
  destruct (onGrid_step _ _ _ _ _ _ _ _ _ Hg Hmove)
    as [zs [axis [index [dir [Hc [Hp [Hf [Hin ->]]]]]]]].
  exists (map (zturn axis index dir) zs). split; [reflexivity |].
  assert (Hcells : map fst (map (zturn axis index dir) zs) =
                   map (cellTurn axis index dir) (map fst zs)).
  { clear. induction zs as [| zc zs IH]; simpl; [reflexivity |].
    rewrite zturn_fst, IH. reflexivity. }
  rewrite Hcells. apply cellTurn_permutes; assumption.
Qed.

Lemma settled_run cb st face invert d start now t :
  isAnimating st = false -> faceMove face invert <> None ->
  0 < d -> d <= IZR (t - start) ->
  move cb st face invert (Fin d) start now [t] =
    (fst (move cb st face invert (Fin d) start now [t]), Resolved (JBool true)) /\
  isAnimating (fst (move cb st face invert (Fin d) start now [t])) = false.
Proof.
  intros Hidle Hface Hpos Hlate.
  destruct (move_completes cb st face invert d start now [] t [] Hidle Hface Hpos Hlate)
    as [st' Hm].
  simpl app in Hm. rewrite Hm. simpl fst. split; [reflexivity |].
  apply move_true_inv in Hm. destruct Hm as [_ [ax [ix [dr [_ ->]]]]]. reflexivity.
Qed.

Lemma turnOnce_settles face invert st :
  isAnimating st = false -> faceMove face invert <> None ->
  move false st face invert (Fin 300) 0 0 [300%Z] =
    (turnOnce face invert st, Resolved (JBool true)) /\
  isAnimating (turnOnce face invert st) = false.
Proof.
  intros Hidle Hface. unfold turnOnce.
  apply settled_run; [assumption | assumption | lra | simpl; lra].
Qed.

(** X15: Between moves the cube is always exactly on the grid: in the initial
    state and after every completed move, each of the 27 cubies hangs
    under the scene at the grid point of a cell of its own, with Euler
    angles that are whole multiples of pi/2, the busy flag is clear and
    the pivot rotation is (0, 0, 0); and any state that is on the grid
    stays on it through a completed move. *)
Theorem grid_invariant_between_moves :
  forall (cb : bool),
    (forall st, reachable cb st ->
       onGrid st /\ isAnimating st = false /\ pivotRotation st = zeroNV /\
       List.length (cubies st) = 27%nat) /\
    (forall st face invert duration start now times st',
       onGrid st ->
       move cb st face invert duration start now times = (st', Resolved (JBool true)) ->
       onGrid st').
Proof.
  intros cb. split.
  - intros st Hreach.
    assert (Hlen : forall s, onGrid s -> List.length (cubies s) = 27%nat).
    { intros s [zs [Hc Hp]]. rewrite Hc, length_map.
      replace (List.length zs) with (List.length (map fst zs)) by apply length_map.
      rewrite (Permutation_length Hp). reflexivity. }
    induction Hreach as [| st face invert duration start now times st' _ IH Hmove].
    + split; [apply onGrid_initial |]. repeat split.
    + destruct IH as [Hg _].
      pose proof (onGrid_preserved _ _ _ _ _ _ _ _ _ Hg Hmove) as Hg'.
      split; [exact Hg' |].
      apply move_true_inv in Hmove. destruct Hmove as [_ [ax [ix [dr [_ Hst]]]]].
      split; [rewrite Hst; reflexivity |].
      split; [rewrite Hst; reflexivity | apply Hlen; exact Hg'].
  - intros st face invert duration start now times st'. apply onGrid_preserved.
Qed.

Lemma grid_invariant_between_moves_witness :
  onGrid (turnOnce "U" false (turnOnce "R" true initialState)).
Proof.
  destruct (turnOnce_settles "R" true initialState eq_refl
              ltac:(intros H; vm_compute in H; discriminate)) as [H1 Hb1].
  destruct (turnOnce_settles "U" false (turnOnce "R" true initialState) Hb1
              ltac:(intros H; vm_compute in H; discriminate)) as [H2 _].
  apply (proj1 (grid_invariant_between_moves false)).
  eapply reach_move; [| exact H2].
  eapply reach_move; [| exact H1].
  apply reach_initial.
Defined.

Lemma active_grid_turned axis index dir s s' :
  (dir = 1 \/ dir = -1)%Z ->
  forall zs k,
    filterIdx (inLayer s' axis index) (map gridMesh (map (zturn axis index dir) zs)) k =
    filterIdx (inLayer s axis index) (map gridMesh zs) k.
Proof.
  intros Hdir. induction zs as [| zc zs IH]; intros k; simpl; [reflexivity |].
  rewrite !inLayer_gridMesh, (zturn_coord axis index dir zc Hdir), !IH. reflexivity.
Qed.

(** X16: A completed face move keeps the layer together: on the grid, the
    call selects 9 cubies, and the same face selects the same 9 array
    positions again in the state the move settles in. *)
Theorem layer_survives_move :
  forall (cb : bool) (st : State) (face : string) (invert : bool) (duration : num)
         (start now : Z) (times : list Z) (st' : State) (axis : Axis) (index dir : Z),
    onGrid st ->
    move cb st face invert duration start now times = (st', Resolved (JBool true)) ->
    faceMove face invert = Some (axis, index, dir) ->
    List.length (activeCubies st axis index) = 9%nat /\
    activeCubies st' axis index = activeCubies st axis index.
Proof.
  intros cb st face invert duration start now times st' axis index dir Hg Hmove Hf.
  destruct (allTurns_cases _ _ _ (faceMove_in_allTurns _ _ _ _ _ Hf)) as [Hindex Hdir].
  split.
  - rewrite (nearGrid_selection_count st 0 axis index ltac:(lra) (onGrid_nearGrid st Hg)).
    destruct Hindex as [-> | ->]; reflexivity.
  - destruct Hg as [zs [Hc _]].
    destruct (grid_step _ _ _ _ _ _ _ _ _ _ Hc Hmove) as [ax [ix [dr [Hf' [_ ->]]]]].
    rewrite Hf in Hf'. inversion Hf'; subst ax ix dr.
    unfold activeCubies. simpl cubies. rewrite Hc.
    apply active_grid_turned. exact Hdir.
Qed.

Lemma layer_survives_move_witness :
  List.length (activeCubies initialState AxZ 1) = 9%nat /\
  activeCubies (turnOnce "F" false initialState) AxZ 1 = activeCubies initialState AxZ 1.
Proof.
  destruct (turnOnce_settles "F" false initialState eq_refl
              ltac:(intros H; vm_compute in H; discriminate)) as [H1 _].
  exact (layer_survives_move false initialState "F" false (Fin 300) 0 0 [300%Z]
           (turnOnce "F" false initialState) AxZ 1 (-1) onGrid_initial H1 eq_refl).
Defined.

Lemma sameTransform_grid zc zc' :
  fst zc = fst zc' -> zEuler (snd zc) = zEuler (snd zc') ->
  sameTransform (gridMesh zc) (gridMesh zc').
Proof.
  intros Hc Hq. split; [reflexivity |].
  eexists. eexists. split; [reflexivity |]. split; [reflexivity |]. simpl.
  split; [rewrite Hc; reflexivity |].
  rewrite !eulerMatrix_quarter, Hq. reflexivity.
Qed.

Lemma Forall2_grid (h : ZCubie -> ZCubie) :
  (forall zc, fst (h zc) = fst zc /\ zEuler (snd (h zc)) = zEuler (snd zc)) ->
  forall zs, Forall2 sameTransform (map gridMesh zs) (map gridMesh (map h zs)).
Proof.
  intros Hh. induction zs as [| zc zs IH]; simpl.
  - apply Forall2_nil.
  - apply Forall2_cons; [| exact IH].
    destruct (Hh zc) as [Hc Hq]. apply sameTransform_grid; symmetry; assumption.
Qed.

Lemma zturn_four axis index dir zc :
  (dir = 1 \/ dir = -1)%Z ->
  let t := zturn axis index dir in
  fst (t (t (t (t zc)))) = fst zc /\ zEuler (snd (t (t (t (t zc))))) = zEuler (snd zc).
Proof.
  intros Hdir t. subst t. destruct zc as [c q].
  destruct (cellCoord axis c =? index)%Z eqn:Hsel.
  - destruct (zturn_selected axis index dir c q Hsel) as [q1 [E1 Q1]].
    assert (S1 : (cellCoord axis (zmulMV (zAxisTurn axis dir) c) =? index)%Z = true)
      by (rewrite zAxisTurn_coord by assumption; exact Hsel).
    destruct (zturn_selected axis index dir _ q1 S1) as [q2 [E2 Q2]].
    assert (S2 : (cellCoord axis (zmulMV (zAxisTurn axis dir)
                    (zmulMV (zAxisTurn axis dir) c)) =? index)%Z = true)
      by (rewrite zAxisTurn_coord by assumption; exact S1).
    destruct (zturn_selected axis index dir _ q2 S2) as [q3 [E3 Q3]].
    assert (S3 : (cellCoord axis (zmulMV (zAxisTurn axis dir) (zmulMV (zAxisTurn axis dir)
                    (zmulMV (zAxisTurn axis dir) c))) =? index)%Z = true)
      by (rewrite zAxisTurn_coord by assumption; exact S2).
    destruct (zturn_selected axis index dir _ q3 S3) as [q4 [E4 Q4]].
    rewrite E1, E2, E3, E4. cbn [fst snd].
    split; [apply zAxisTurn_four; assumption |].
    rewrite Q4, Q3, Q2, Q1.
    exact (proj1 (orientation_rounds axis dir q Hdir)).
  - rewrite !(zturn_unselected axis index dir (c, q)) by exact Hsel. auto.
Qed.

Lemma zturn_back axis index dir zc :
  (dir = 1 \/ dir = -1)%Z ->
  fst (zturn axis index (- dir) (zturn axis index dir zc)) = fst zc /\
  zEuler (snd (zturn axis index (- dir) (zturn axis index dir zc))) = zEuler (snd zc).
Proof.
  intros Hdir. destruct zc as [c q].
  destruct (cellCoord axis c =? index)%Z eqn:Hsel.
  - destruct (zturn_selected axis index dir c q Hsel) as [q1 [E1 Q1]].
    assert (S1 : (cellCoord axis (zmulMV (zAxisTurn axis dir) c) =? index)%Z = true)
      by (rewrite zAxisTurn_coord by assumption; exact Hsel).
    destruct (zturn_selected axis index (- dir) _ q1 S1) as [q2 [E2 Q2]].
    rewrite E1, E2. cbn [fst snd].
    split; [apply zAxisTurn_back; assumption |].
    rewrite Q2, Q1. exact (proj2 (orientation_rounds axis dir q Hdir)).
  - rewrite !(zturn_unselected _ _ _ (c, q)) by exact Hsel. auto.
Qed.

Lemma faceMove_negb face invert axis index dir :
  faceMove face invert = Some (axis, index, dir) ->
  faceMove face (negb invert) = Some (axis, index, (- dir)%Z).
Proof.
  unfold faceMove.
  repeat match goal with
         | |- context [String.eqb ?a ?b] => destruct (String.eqb a b)
         end;
    destruct invert; intros H; inversion H; subst; reflexivity.
Qed.

(** X17: Four completed turns of the same face in the same direction bring
    every cubie back: from any state on the grid, whatever the four
    durations and clock readings are, each cubie ends with the position
    and the orientation matrix it started with. *)
Theorem four_turns_restore :
  forall (cb : bool) (st st1 st2 st3 st4 : State) (face : string) (invert : bool)
         (d1 d2 d3 d4 : num) (s1 n1 s2 n2 s3 n3 s4 n4 : Z) (ts1 ts2 ts3 ts4 : list Z),
    onGrid st ->
    move cb st face invert d1 s1 n1 ts1 = (st1, Resolved (JBool true)) ->
    move cb st1 face invert d2 s2 n2 ts2 = (st2, Resolved (JBool true)) ->
    move cb st2 face invert d3 s3 n3 ts3 = (st3, Resolved (JBool true)) ->
    move cb st3 face invert d4 s4 n4 ts4 = (st4, Resolved (JBool true)) ->
    Forall2 sameTransform (cubies st) (cubies st4).
Proof.
  intros cb st st1 st2 st3 st4 face invert d1 d2 d3 d4 s1 n1 s2 n2 s3 n3 s4 n4
         ts1 ts2 ts3 ts4 [zs [Hc _]] H1 H2 H3 H4.
  destruct (grid_step _ _ _ _ _ _ _ _ _ _ Hc H1) as [axis [index [dir [Hf [Hin E1]]]]].
  assert (Hc1 : cubies st1 = map gridMesh (map (zturn axis index dir) zs))
    by (rewrite E1; reflexivity).
  destruct (grid_step _ _ _ _ _ _ _ _ _ _ Hc1 H2) as [a2 [i2 [r2 [Hf2 [_ E2]]]]].
  rewrite Hf in Hf2. inversion Hf2; subst a2 i2 r2.
  assert (Hc2 : cubies st2 = map gridMesh (map (zturn axis index dir)
                                 (map (zturn axis index dir) zs)))
    by (rewrite E2; reflexivity).
  destruct (grid_step _ _ _ _ _ _ _ _ _ _ Hc2 H3) as [a3 [i3 [r3 [Hf3 [_ E3]]]]].
  rewrite Hf in Hf3. inversion Hf3; subst a3 i3 r3.
  assert (Hc3 : cubies st3 = map gridMesh (map (zturn axis index dir)
                                 (map (zturn axis index dir)
                                    (map (zturn axis index dir) zs))))
    by (rewrite E3; reflexivity).
  destruct (grid_step _ _ _ _ _ _ _ _ _ _ Hc3 H4) as [a4 [i4 [r4 [Hf4 [_ E4]]]]].
  rewrite Hf in Hf4. inversion Hf4; subst a4 i4 r4.
  rewrite E4, Hc. simpl cubies. rewrite !map_map.
  rewrite <- (map_map (fun zc => zturn axis index dir (zturn axis index dir
                         (zturn axis index dir (zturn axis index dir zc)))) gridMesh).
  apply Forall2_grid. intros zc.
  apply (zturn_four axis index dir zc).
  exact (proj2 (allTurns_cases _ _ _ Hin)).
Qed.

Lemma four_turns_restore_witness :
  Forall2 sameTransform
    (cubies (turnOnce "U" false initialState))
    (cubies (turnOnce "R" false (turnOnce "R" false (turnOnce "R" false
       (turnOnce "R" false (turnOnce "U" false initialState)))))).
Proof.
  assert (HU : faceMove "U" false <> None) by (intros H; vm_compute in H; discriminate).
  assert (HR : faceMove "R" false <> None) by (intros H; vm_compute in H; discriminate).
  destruct (turnOnce_settles "U" false initialState eq_refl HU) as [H0 B0].
  destruct (turnOnce_settles "R" false _ B0 HR) as [H1 B1].
  destruct (turnOnce_settles "R" false _ B1 HR) as [H2 B2].
  destruct (turnOnce_settles "R" false _ B2 HR) as [H3 B3].
  destruct (turnOnce_settles "R" false _ B3 HR) as [H4 _].
  refine (four_turns_restore false _ _ _ _ _ "R" false _ _ _ _ _ _ _ _ _ _ _ _ _ _ _ _
            _ H1 H2 H3 H4).
  apply (onGrid_preserved _ _ _ _ _ _ _ _ _ onGrid_initial H0).
Defined.

(** X18: A completed turn followed by the completed inverse turn of the same
    face brings every cubie back to the position and the orientation
    matrix it had, from any state on the grid; and on a fresh cube the
    sequence U, U', U, U' ends with exactly the cubies of the start. *)
Theorem turn_then_inverse_restores :
  forall (cb : bool) (face : string) (invert : bool),
    (forall (st st1 st2 : State) (d1 d2 : num) (s1 n1 s2 n2 : Z) (ts1 ts2 : list Z),
       onGrid st ->
       move cb st face invert d1 s1 n1 ts1 = (st1, Resolved (JBool true)) ->
       move cb st1 face (negb invert) d2 s2 n2 ts2 = (st2, Resolved (JBool true)) ->
       Forall2 sameTransform (cubies st) (cubies st2)) /\
    (forall (st1 st2 st3 st4 : State) (d1 d2 d3 d4 : num)
            (s1 n1 s2 n2 s3 n3 s4 n4 : Z) (ts1 ts2 ts3 ts4 : list Z),
       move cb initialState "U" false d1 s1 n1 ts1 = (st1, Resolved (JBool true)) ->
       move cb st1 "U" true d2 s2 n2 ts2 = (st2, Resolved (JBool true)) ->
       move cb st2 "U" false d3 s3 n3 ts3 = (st3, Resolved (JBool true)) ->
       move cb st3 "U" true d4 s4 n4 ts4 = (st4, Resolved (JBool true)) ->
       cubies st4 = cubies initialState).
Proof.
  intros cb face invert. split.
  - intros st st1 st2 d1 d2 s1 n1 s2 n2 ts1 ts2 [zs [Hc _]] H1 H2.
    destruct (grid_step _ _ _ _ _ _ _ _ _ _ Hc H1) as [axis [index [dir [Hf [Hin E1]]]]].
    assert (Hc1 : cubies st1 = map gridMesh (map (zturn axis index dir) zs))
      by (rewrite E1; reflexivity).
    destruct (grid_step _ _ _ _ _ _ _ _ _ _ Hc1 H2) as [a2 [i2 [r2 [Hf2 [_ E2]]]]].
    rewrite (faceMove_negb _ _ _ _ _ Hf) in Hf2. inversion Hf2; subst a2 i2 r2.
    rewrite E2, Hc. simpl cubies. rewrite !map_map.
    rewrite <- (map_map (fun zc => zturn axis index (- dir) (zturn axis index dir zc))
                        gridMesh).
    apply Forall2_grid. intros zc. apply zturn_back.
    exact (proj2 (allTurns_cases _ _ _ Hin)).
  - intros st1 st2 st3 st4 d1 d2 d3 d4 s1 n1 s2 n2 s3 n3 s4 n4 ts1 ts2 ts3 ts4
           H1 H2 H3 H4.
    assert (Hc : cubies initialState = map gridMesh (map (fun c => (c, (0, 0, 0)%Z)) allCells))
      by (simpl cubies; rewrite buildCubies_cells, map_map; reflexivity).
    destruct (grid_step _ _ _ _ _ _ _ _ _ _ Hc H1) as [a1 [i1 [r1 [Hf1 [_ E1]]]]].
    inversion Hf1; subst a1 i1 r1.
    assert (Hc1 : cubies st1 = map gridMesh (map (zturn AxY 1 (-1))
                     (map (fun c => (c, (0, 0, 0)%Z)) allCells)))
      by (rewrite E1; reflexivity).
    destruct (grid_step _ _ _ _ _ _ _ _ _ _ Hc1 H2) as [a2 [i2 [r2 [Hf2 [_ E2]]]]].
    inversion Hf2; subst a2 i2 r2.
    assert (Hc2 : cubies st2 = map gridMesh (map (fun c => (c, (0, 0, 0)%Z)) allCells)).
    { rewrite E2. simpl cubies. f_equal. vm_compute. reflexivity. }
    destruct (grid_step _ _ _ _ _ _ _ _ _ _ Hc2 H3) as [a3 [i3 [r3 [Hf3 [_ E3]]]]].
    inversion Hf3; subst a3 i3 r3.
    assert (Hc3 : cubies st3 = map gridMesh (map (zturn AxY 1 (-1))
                     (map (fun c => (c, (0, 0, 0)%Z)) allCells)))
      by (rewrite E3; reflexivity).
    destruct (grid_step _ _ _ _ _ _ _ _ _ _ Hc3 H4) as [a4 [i4 [r4 [Hf4 [_ E4]]]]].
    inversion Hf4; subst a4 i4 r4.
    rewrite E4, Hc. simpl cubies. f_equal. vm_compute. reflexivity.
Qed.

Lemma turn_then_inverse_restores_witness :
  Forall2 sameTransform
    (cubies (turnOnce "R" false initialState))
    (cubies (turnOnce "F" false (turnOnce "F" true (turnOnce "R" false initialState)))) /\
  cubies (turnOnce "U" true (turnOnce "U" false (turnOnce "U" true
            (turnOnce "U" false initialState)))) = cubies initialState.
Proof.
  assert (HR : faceMove "R" false <> None) by (intros H; vm_compute in H; discriminate).
  assert (HF : faceMove "F" true <> None) by (intros H; vm_compute in H; discriminate).
  assert (HF' : faceMove "F" false <> None) by (intros H; vm_compute in H; discriminate).
  assert (HU : faceMove "U" false <> None) by (intros H; vm_compute in H; discriminate).
  assert (HU' : faceMove "U" true <> None) by (intros H; vm_compute in H; discriminate).
  split.
  - destruct (turnOnce_settles "R" false initialState eq_refl HR) as [H0 B0].
    destruct (turnOnce_settles "F" true _ B0 HF) as [H1 B1].
    destruct (turnOnce_settles "F" false _ B1 HF') as [H2 _].
    refine (proj1 (turn_then_inverse_restores false "F" true) _ _ _ _ _ _ _ _ _ _ _
              _ H1 H2).
    apply (onGrid_preserved _ _ _ _ _ _ _ _ _ onGrid_initial H0).
  - destruct (turnOnce_settles "U" false initialState eq_refl HU) as [H1 B1].
    destruct (turnOnce_settles "U" true _ B1 HU') as [H2 B2].
    destruct (turnOnce_settles "U" false _ B2 HU) as [H3 B3].
    destruct (turnOnce_settles "U" true _ B3 HU') as [H4 _].
    exact (proj2 (turn_then_inverse_restores false "U" false) _ _ _ _ _ _ _ _ _ _ _ _ _ _
             _ _ _ _ _ _ H1 H2 H3 H4).
Defined.

(** * The cubies during the animation *)

Lemma forEachActive_once f g l :
  forEachActive f (filterIdx g l 0) l = map (fun m => if g m then f m else m) l.
Proof.
  rewrite (forEachActive_filterIdx f g l l eq_refl).
  replace (combine l l) with (map (fun x => (x, x)) l)
    by (rewrite <- (combine_map_r (fun x => x) l), map_id; reflexivity).
  rewrite map_map. reflexivity.
Qed.

Lemma axis_rotation_keeps (axis : Axis) (angle : R) (p : V3) :
  let w := addV (mulMV (eulerMatrix (axisAngles axis angle)) p) zeroV in
  axisCoord axis w = axisCoord axis p /\ normSq w = normSq p /\
  (angle = 0 -> w = p).
Proof.
  intros w. subst w.
  pose proof (sin2_cos2 angle) as Hsc. unfold Rsqr in Hsc.
  destruct p as [x y z].
  destruct axis; unfold axisAngles, eulerMatrix, mulMV, addV, normSq, zeroV, axisCoord;
    cbn [vx vy vz m11 m12 m13 m21 m22 m23 m31 m32 m33];
    rewrite ?cos_0, ?sin_0;
    (split; [ring | split; [| intros ->; rewrite ?cos_0, ?sin_0; f_equal; ring]]).
  - replace (_ + _ + _) with
      (x * x + (y * y + z * z) * (sin angle * sin angle + cos angle * cos angle)) by ring.
    rewrite Hsc. ring.
  - replace (_ + _ + _) with
      (y * y + (x * x + z * z) * (sin angle * sin angle + cos angle * cos angle)) by ring.
    rewrite Hsc. ring.
  - replace (_ + _ + _) with
      (z * z + (x * x + y * y) * (sin angle * sin angle + cos angle * cos angle)) by ring.
    rewrite Hsc. ring.
Qed.
Lemma rotateAbout_pivot (axis : Axis) (angle : R) (p : V3) :
  addV (mulMV (eulerMatrix (axisAngles axis angle)) p) zeroV = rotateAbout axis angle p.
Proof.
  destruct p as [x y z].
  destruct axis; unfold axisAngles, eulerMatrix, mulMV, addV, zeroV, rotateAbout;
    cbn [vx vy vz m11 m12 m13 m21 m22 m23 m31 m32 m33];
    rewrite ?cos_0, ?sin_0; f_equal; ring.
Qed.

(** X19: Over exact reals, while a move with a finite non-zero duration
    is animating: a selected cubie of the scene hangs under the pivot and
    its world position is its old position turned about the move's axis
    by the pivot angle, which is (pi/2) * direction * eased; a cubie that
    was not selected is untouched; so every cubie keeps its coordinate
    along the axis and its distance from the origin; and at a frame
    sampled at the start time the angle is 0 and nothing has moved. *)
Theorem cubies_during_animation :
  forall (cb : bool) (st : State) (axis : Axis) (index dir : Z) (d : R)
         (start now : Z) (times : list Z) (st' : State) (a : Anim)
         (i : nat) (m : Mesh) (p : Pose),
    d <> 0 ->
    runFrames cb times (rotateLayer cb st axis index dir (Fin d) start now) =
      (st', Pending a) ->
    nth_error (cubies st) i = Some m -> parent m = InScene -> pose m = Some p ->
    exists m' w e,
      nth_error (cubies st') i = Some m' /\
      getWorldPosition st' m' = Some w /\
      easedAt a (last times now) = Fin e /\
      pivotAxis axis (pivotRotation st') = Fin (PI / 2 * IZR dir * e) /\
      (inLayer st axis index m = true ->
       parent m' = InPivot /\
       w = rotateAbout axis (PI / 2 * IZR dir * e) (position p)) /\
      (inLayer st axis index m = false -> m' = m /\ w = position p) /\
      axisCoord axis w = axisCoord axis (position p) /\
      normSq w = normSq (position p) /\
      (last times now = start -> e = 0 /\ w = position p).
Proof.
  intros cb st axis index dir d start now times st' a i m p Hd Hrun Hnth Hpar Hpose.
  destruct (isAnimating st) eqn:Hb.
  { rewrite rotateLayer_busy, runFrames_resolved in Hrun by assumption. discriminate. }
  rewrite rotateLayer_idle in Hrun by assumption. cbv zeta in Hrun.
  match type of Hrun with runFrames cb times (animateRotation cb ?a0 now ?s) = _ =>
    pose proof (runFrames_trace cb times now s a0) as Ht end.
  cbv zeta in Ht. rewrite Hrun in Ht. simpl in Ht. destruct Ht as [Ha [_ Hst]].
  subst a.
  set (t := last times now) in *.
  set (a := mkAnim axis (PI / 2 * IZR dir) start (Fin d) (activeCubies st axis index)) in *.
  assert (He : exists e, easedAt a t = Fin e /\ (t = start -> e = 0)).
  { unfold easedAt. rewrite (progressAt_finite a t d eq_refl Hd). simpl.
    eexists. split; [reflexivity |].
    intros ->. rewrite Z.sub_diag. unfold Rdiv. rewrite Rmult_0_l.
    unfold Rmin. destruct (Rle_dec 0 1); [| lra]. ring. }
  destruct He as [e [He Hzero]].
  set (ang := PI / 2 * IZR dir * e).
  assert (Hang : currentAngleAt a t = Fin ang).
  { unfold currentAngleAt. rewrite He. reflexivity. }
  rewrite Hang in Hst.
  assert (Hcub : nth_error (cubies st') i =
                 Some (if inLayer st axis index m
                       then attach (mkState (cubies st) zeroNV zeroV true
                                      (moveCompleteCalls st)) InPivot m
                       else m)).
  { rewrite Hst. simpl cubies. unfold activeCubies.
    rewrite forEachActive_once, nth_error_map, Hnth. reflexivity. }
  assert (Hpm : pivotMatrix st' = Some (eulerMatrix (axisAngles axis ang))).
  { rewrite Hst. destruct axis; reflexivity. }
  assert (Hpp : pivotPosition st' = zeroV) by (rewrite Hst; reflexivity).
  assert (Hpa : pivotAxis axis (pivotRotation st') = Fin ang).
  { rewrite Hst. simpl pivotRotation. apply pivotAxis_set. }
  destruct (axis_rotation_keeps axis ang (position p)) as [Hk1 [Hk2 Hk3]].
  rewrite rotateAbout_pivot in Hk1, Hk2, Hk3.
  destruct (inLayer st axis index m) eqn:Hsel.
  - exists (attach (mkState (cubies st) zeroNV zeroV true (moveCompleteCalls st))
                   InPivot m),
           (rotateAbout axis ang (position p)), e.
    split; [exact Hcub |].
    assert (Hatt : attach (mkState (cubies st) zeroNV zeroV true (moveCompleteCalls st))
                          InPivot m =
                   mkMesh (Some (mkPose (position p)
                                   (eulerFromMatrix (eulerMatrix (rotation p)))))
                          InPivot).
    { unfold attach. rewrite Hpose, Hpar. reflexivity. }
    rewrite Hatt.
    split.
    { unfold getWorldPosition. cbn [pose parent position]. rewrite Hpm, Hpp.
      rewrite rotateAbout_pivot. reflexivity. }
    split; [exact He |]. split; [exact Hpa |].
    split; [intros _; split; reflexivity |].
    split; [discriminate |].
    split; [exact Hk1 |]. split; [exact Hk2 |].
    intros Hs. split; [apply Hzero; exact Hs |].
    apply Hk3. unfold ang. rewrite (Hzero Hs). ring.
  - exists m, (position p), e. split; [exact Hcub |].
    split; [unfold getWorldPosition; rewrite Hpose, Hpar; reflexivity |].
    split; [exact He |]. split; [exact Hpa |].
    split; [discriminate |].
    split; [intros _; split; reflexivity |].
    split; [reflexivity |]. split; [reflexivity |].
    intros Hs. split; [apply Hzero; exact Hs | reflexivity].
Qed.

Lemma cubies_during_animation_witness :
  exists m' w e,
    nth_error (cubies (fst halfwayRun)) 26 = Some m' /\
    getWorldPosition (fst halfwayRun) m' = Some w /\
    parent m' = InPivot /\
    w = rotateAbout AxX (PI / 2 * IZR (-1) * e) (cellPoint (1, 1, 1)%Z).
Proof.
  destruct (cubies_during_animation false initialState AxX 1 (-1) 300 0 0 [150%Z]
              (fst halfwayRun) _ 26
              (mkMesh (Some (mkPose (cellPoint (1, 1, 1)%Z) zeroV)) InScene)
              (mkPose (cellPoint (1, 1, 1)%Z) zeroV)
              ltac:(lra) halfwayRun_pending eq_refl eq_refl eq_refl)
    as [m' [w [e [H1 [H2 [_ [_ [Hsel _]]]]]]]].
  assert (Hin : inLayer initialState AxX 1
                  (mkMesh (Some (mkPose (cellPoint (1, 1, 1)%Z) zeroV)) InScene) = true).
  { rewrite <- gridMesh_unrotated. rewrite inLayer_gridMesh. reflexivity. }
  destruct (Hsel Hin) as [Hp Hw].
  exists m', w, e. auto.
Defined.
